(** * Houston CRM: pipeline/stage engine, deal lifecycle and message dispatch

    A shallow embedding of the tRPC routers (deal, pipeline, contact, email)
    and of the worker services (email and SMS senders, SendGrid webhook),
    together with the properties stated for them.

    Conventions of the embedding.
    - A Prisma table is a list of rows; [findFirst]/[findUnique] return the
      first matching row, [update] rewrites the rows carrying the given id.
    - Ids are minted by the store.  Prisma mints cuid strings; the model
      mints consecutive numbers from [nextId].  Routers only compare ids.
    - [new Date()] is the argument [now] (milliseconds) of an operation.
    - A handler returns the store it leaves behind together with either its
      value or the error it throws.
    - JavaScript numbers are exact rationals extended with the two
      infinities and NaN; binary rounding error of doubles is not modelled. *)

From Stdlib Require Import List ZArith QArith Qround String Bool Lia Arith.
From Stdlib Require Import Permutation.
Import ListNotations.
Close Scope Q_scope.
Open Scope nat_scope.

(* ------------------------------------------------------------------ *)
(** ** Outcomes of handlers *)

(** The tRPC error codes the routers throw. *)
Inductive TRPCCode : Type :=
| NOT_FOUND
| BAD_REQUEST
| PRECONDITION_FAILED
| CONFLICT.

(** A [TRPCError]: a code and its human readable message. *)
Record TRPCError : Type := mkTRPCError {
  code : TRPCCode;
  message : string
}.

(** What a call yields: the returned value or the thrown error. *)
Inductive outcome (E A : Type) : Type :=
| Return (a : A)
| Throw (e : E).
Arguments Return {E A} a.
Arguments Throw {E A} e.

Definition Id := nat.
Definition Date := Z.

(** JavaScript truthiness of a possibly missing string: [undefined], [null]
    and the empty string are falsy. *)
Definition truthy (s : option string) : bool :=
  match s with
  | Some EmptyString => false
  | Some _ => true
  | None => false
  end.

(** [a || b] on possibly missing strings. *)
Definition js_or (a b : option string) : option string :=
  if truthy a then a else b.

(* ------------------------------------------------------------------ *)
(** ** JavaScript numbers *)

Module JsNum.

Inductive jsnum : Type :=
| Fin (q : Q)
| PosInf
| NegInf
| NaN.

Definition of_nat (n : nat) : jsnum := Fin (inject_Z (Z.of_nat n)).
Definition of_Z (z : Z) : jsnum := Fin (inject_Z z).

(** Sign of a finite value: -1, 0 or 1. *)
Definition sgn (q : Q) : Z := Z.sgn (Qnum q).

Definition inf_of_sign (s : Z) : jsnum :=
  match s with
  | Z0 => NaN
  | Zpos _ => PosInf
  | Zneg _ => NegInf
  end.

Definition sign_of (x : jsnum) : Z :=
  match x with
  | Fin q => sgn q
  | PosInf => 1
  | NegInf => -1
  | NaN => 0
  end.

(** [x / y]: division never throws; 0/0 is NaN, n/0 is an infinity. *)
Definition div (x y : jsnum) : jsnum :=
  match x, y with
  | NaN, _ | _, NaN => NaN
  | Fin a, Fin b =>
      if Qeq_bool b 0 then inf_of_sign (sgn a) else Fin (Qred (a / b))
  | Fin _, _ => Fin 0
  | _, Fin b =>
      if Qeq_bool b 0 then x else inf_of_sign (sign_of x * sgn b)
  | _, _ => NaN
  end.

(** [x + y]. *)
Definition add (x y : jsnum) : jsnum :=
  match x, y with
  | NaN, _ | _, NaN => NaN
  | Fin a, Fin b => Fin (Qred (a + b))
  | Fin _, _ => y
  | _, Fin _ => x
  | PosInf, PosInf => PosInf
  | NegInf, NegInf => NegInf
  | _, _ => NaN
  end.

(** [x * y]. *)
Definition mul (x y : jsnum) : jsnum :=
  match x, y with
  | NaN, _ | _, NaN => NaN
  | Fin a, Fin b => Fin (Qred (a * b))
  | _, _ => inf_of_sign (sign_of x * sign_of y)
  end.

(** [Math.round]: nearest integer, halves towards plus infinity. *)
Definition round (x : jsnum) : jsnum :=
  match x with
  | Fin q => Fin (inject_Z (Qfloor (q + (1 # 2))))
  | _ => x
  end.

(** Equality of JavaScript numbers as values ([Fin] up to [Qeq]). *)
Definition same (x y : jsnum) : Prop :=
  match x, y with
  | Fin a, Fin b => Qeq a b
  | PosInf, PosInf | NegInf, NegInf | NaN, NaN => True
  | _, _ => False
  end.

End JsNum.

(* ------------------------------------------------------------------ *)
(** ** Data model *)

Inductive DealStatus : Type := OPEN | WON | LOST.

Definition DealStatus_eqb (a b : DealStatus) : bool :=
  match a, b with
  | OPEN, OPEN | WON, WON | LOST, LOST => true
  | _, _ => false
  end.

Record Contact : Type := mkContact {
  contact_id : Id;
  contact_tenantId : Id;
  contact_firstName : string;
  contact_lastName : string;
  contact_email : option string;
  contact_company : option string;
  contact_leadStatus : string;
  contact_assignedToId : option Id;
  contact_tagIds : list Id;
  contact_createdAt : Date
}.

Record Pipeline : Type := mkPipeline {
  pipeline_id : Id;
  pipeline_tenantId : Id;
  pipeline_name : string;
  pipeline_description : option string;
  pipeline_order : Z
}.

Record PipelineStage : Type := mkStage {
  stage_id : Id;
  stage_pipelineId : Id;
  stage_name : string;
  stage_color : string;
  stage_order : Z
}.

Record Deal : Type := mkDeal {
  deal_id : Id;
  deal_tenantId : Id;
  deal_contactId : Id;
  deal_pipelineId : Id;
  deal_stageId : Id;
  deal_title : string;
  deal_value : Q;
  deal_currency : string;
  deal_probability : option Q;
  deal_expectedCloseDate : option Date;
  deal_actualCloseDate : option Date;
  deal_status : DealStatus;
  deal_createdAt : Date
}.

(** An audit row.  The free-text description of the source is left out. *)
Record Activity : Type := mkActivity {
  activity_tenantId : Id;
  activity_contactId : option Id;
  activity_dealId : option Id;
  activity_userId : Id;
  activity_type : string;
  activity_title : string
}.

(** The relational store seen by the routers. *)
Record Store : Type := mkStore {
  contacts : list Contact;
  pipelines : list Pipeline;
  stages : list PipelineStage;
  deals : list Deal;
  activities : list Activity;
  nextId : Id
}.

(** The request context: the tenant and the acting user. *)
Record Ctx : Type := mkCtx {
  tenantId : Id;
  userId : Id
}.

Definition opt_eqb (o : option Id) (x : Id) : bool :=
  match o with
  | Some y => Nat.eqb y x
  | None => true
  end.

(** [prisma.<table>.update({ where: { id }, data })] on a table of rows. *)
Definition update_rows {R : Type} (rid : R -> Id) (i : Id) (f : R -> R)
  (rows : list R) : list R :=
  map (fun r => if Nat.eqb (rid r) i then f r else r) rows.

(** [prisma.<table>.delete({ where: { id } })]. *)
Definition delete_rows {R : Type} (rid : R -> Id) (i : Id)
  (rows : list R) : list R :=
  filter (fun r => negb (Nat.eqb (rid r) i)) rows.

(* ------------------------------------------------------------------ *)
(** ** Cursor pagination, as the list queries use it *)

Section FindMany.
Context {R : Type} (rid : R -> Id) (createdAt : R -> Date).

(** [orderBy: { createdAt: 'desc' }], as a stable insertion sort. *)
Fixpoint insert_desc (r : R) (l : list R) : list R :=
  match l with
  | [] => [r]
  | x :: t =>
      if Z.leb (createdAt x) (createdAt r) then r :: l
      else x :: insert_desc r t
  end.

Fixpoint sort_desc (l : list R) : list R :=
  match l with
  | [] => []
  | x :: t => insert_desc x (sort_desc t)
  end.

(** [orderBy: { createdAt: 'asc' }]. *)
Fixpoint insert_asc (r : R) (l : list R) : list R :=
  match l with
  | [] => [r]
  | x :: t =>
      if Z.leb (createdAt r) (createdAt x) then r :: l
      else x :: insert_asc r t
  end.

Fixpoint sort_asc (l : list R) : list R :=
  match l with
  | [] => []
  | x :: t => insert_asc x (sort_asc t)
  end.

(** [cursor: { id }]: the result starts at the row carrying the id.  The
    cursors handed out by the list handlers are ids of rows of the result
    set; for any other id the model yields no row. *)
Fixpoint seek (c : Id) (l : list R) : list R :=
  match l with
  | [] => []
  | x :: t => if Nat.eqb (rid x) c then l else seek c t
  end.

Definition from_cursor (cursor : option Id) (l : list R) : list R :=
  match cursor with
  | Some c => seek c l
  | None => l
  end.

(** The rows a query ranges over: those matching [where_], newest first,
    from the cursor on. *)
Definition matching (where_ : R -> bool) (cursor : option Id)
  (rows : list R) : list R :=
  from_cursor cursor (sort_desc (filter where_ rows)).

(** [findMany({ where, take, cursor, orderBy: { createdAt: 'desc' } })]. *)
Definition findMany (where_ : R -> bool) (take : nat) (cursor : option Id)
  (rows : list R) : list R :=
  firstn take (matching where_ cursor rows).

(** [Array.prototype.pop]: the last element, if any, and the rest. *)
Fixpoint pop (l : list R) : option R * list R :=
  match l with
  | [] => (None, [])
  | [x] => (Some x, [])
  | x :: t => let (r, t') := pop t in (r, x :: t')
  end.

(** The tail shared by every list handler:
    [if (rows.length > limit) { nextCursor = rows.pop()!.id }]. *)
Definition page_of (limit : nat) (rows : list R) : list R * option Id :=
  if Nat.ltb limit (List.length rows)
  then let (nextItem, rest) := pop rows in (rest, option_map rid nextItem)
  else (rows, None).

(** A list handler: fetch [limit + 1] rows, split off the look-ahead. *)
Definition list_query (where_ : R -> bool) (limit : nat)
  (cursor : option Id) (rows : list R) : list R * option Id :=
  page_of limit (findMany where_ (limit + 1) cursor rows).

(** What is stated of a page, given the rows [avail] the query ranges
    over: at most [limit] rows, the first [limit] of them; a next cursor
    exactly when more than [limit] rows are available, and then the id of
    row number [limit], the first row beyond the page. *)
Definition page_spec (limit : nat) (avail : list R)
  (result : list R * option Id) : Prop :=
  List.length (fst result) <= limit
  /\ fst result = firstn limit avail
  /\ (snd result <> None <-> limit < List.length avail)
  /\ (forall c, snd result = Some c ->
      exists r, nth_error avail limit = Some r /\ rid r = c).

End FindMany.

(* ------------------------------------------------------------------ *)
(** ** Deal router *)

Module DealRouter.
Import JsNum.

Record ListInput : Type := mkListInput {
  list_pipelineId : option Id;
  list_stageId : option Id;
  list_contactId : option Id;
  list_status : option DealStatus;
  list_cursor : option Id;
  list_limit : nat
}.

Definition list_where (ctx : Ctx) (input : ListInput) (d : Deal) : bool :=
  Nat.eqb (deal_tenantId d) (tenantId ctx)
  && opt_eqb (list_pipelineId input) (deal_pipelineId d)
  && opt_eqb (list_stageId input) (deal_stageId d)
  && opt_eqb (list_contactId input) (deal_contactId d)
  && match list_status input with
     | Some s => DealStatus_eqb (deal_status d) s
     | None => true
     end.

(** [dealRouter.list]: the page and the cursor of the next one. *)
Definition list_deals (ctx : Ctx) (input : ListInput) (st : Store)
  : list Deal * option Id :=
  list_query deal_id deal_createdAt (list_where ctx input)
    (list_limit input) (list_cursor input) (deals st).

(** The request for the page that starts at a cursor. *)
Definition with_cursor (c : Id) (input : ListInput) : ListInput :=
  mkListInput (list_pipelineId input) (list_stageId input)
              (list_contactId input) (list_status input) (Some c)
              (list_limit input).

Record CreateInput : Type := mkCreateInput {
  create_contactId : Id;
  create_pipelineId : Id;
  create_stageId : Id;
  create_title : string;
  create_value : Q;
  create_currency : string;
  create_probability : option Q;
  create_expectedCloseDate : option Date
}.

Definition not_found (msg : string) : TRPCError := mkTRPCError NOT_FOUND msg.
Definition bad_request (msg : string) : TRPCError := mkTRPCError BAD_REQUEST msg.

Definition find_contact (i t : Id) (st : Store) : option Contact :=
  find (fun c => Nat.eqb (contact_id c) i && Nat.eqb (contact_tenantId c) t)
       (contacts st).

Definition find_pipeline (i t : Id) (st : Store) : option Pipeline :=
  find (fun p => Nat.eqb (pipeline_id p) i && Nat.eqb (pipeline_tenantId p) t)
       (pipelines st).

(** [pipelineStage.findFirst({ where: { id, pipelineId } })]. *)
Definition find_stage_in (i p : Id) (st : Store) : option PipelineStage :=
  find (fun s => Nat.eqb (stage_id s) i && Nat.eqb (stage_pipelineId s) p)
       (stages st).

(** [deal.findFirst({ where: { id, tenantId } })]. *)
Definition find_deal (i t : Id) (st : Store) : option Deal :=
  find (fun d => Nat.eqb (deal_id d) i && Nat.eqb (deal_tenantId d) t)
       (deals st).

Definition log_activity (a : Activity) (st : Store) : Store :=
  mkStore (contacts st) (pipelines st) (stages st) (deals st)
          (activities st ++ [a]) (nextId st).

Definition set_deals (ds : list Deal) (st : Store) : Store :=
  mkStore (contacts st) (pipelines st) (stages st) ds
          (activities st) (nextId st).

(** [dealRouter.create]. *)
Definition create (ctx : Ctx) (now : Date) (input : CreateInput) (st : Store)
  : Store * outcome TRPCError Deal :=
  match find_contact (create_contactId input) (tenantId ctx) st with
  | None => (st, Throw (not_found "Contact not found"))
  | Some _ =>
    match find_pipeline (create_pipelineId input) (tenantId ctx) st with
    | None => (st, Throw (not_found "Pipeline not found"))
    | Some _ =>
      match find_stage_in (create_stageId input) (create_pipelineId input) st with
      | None => (st, Throw (not_found "Stage not found"))
      | Some _ =>
        let deal :=
          mkDeal (nextId st) (tenantId ctx) (create_contactId input)
                 (create_pipelineId input) (create_stageId input)
                 (create_title input) (create_value input)
                 (create_currency input) (create_probability input)
                 (create_expectedCloseDate input) None OPEN now in
        let st1 :=
          mkStore (contacts st) (pipelines st) (stages st)
                  (deals st ++ [deal]) (activities st) (S (nextId st)) in
        let st2 :=
          log_activity
            (mkActivity (tenantId ctx) (Some (create_contactId input))
                        (Some (deal_id deal)) (userId ctx)
                        "SYSTEM" "Deal created") st1 in
        (st2, Return deal)
      end
    end
  end.

(** The partial update of [dealRouter.update]; an absent field is left as
    it is, [expectedCloseDate] may also be set to null. *)
Record UpdateInput : Type := mkUpdateInput {
  update_id : Id;
  update_title : option string;
  update_value : option Q;
  update_probability : option Q;
  update_expectedCloseDate : option (option Date);
  update_status : option DealStatus
}.

Definition or_keep {A : Type} (o : option A) (old : A) : A :=
  match o with
  | Some v => v
  | None => old
  end.

(** The [data] object of the update applied to a row:
    [{ ...data, ...(status === 'WON' && { actualCloseDate: new Date() }),
       ...(status === 'LOST' && { actualCloseDate: new Date() }) }]. *)
Definition apply_update (now : Date) (input : UpdateInput) (d : Deal) : Deal :=
  mkDeal (deal_id d) (deal_tenantId d) (deal_contactId d)
         (deal_pipelineId d) (deal_stageId d)
         (or_keep (update_title input) (deal_title d))
         (or_keep (update_value input) (deal_value d))
         (deal_currency d)
         (match update_probability input with
          | Some p => Some p
          | None => deal_probability d
          end)
         (or_keep (update_expectedCloseDate input) (deal_expectedCloseDate d))
         (match update_status input with
          | Some WON | Some LOST => Some now
          | _ => deal_actualCloseDate d
          end)
         (or_keep (update_status input) (deal_status d))
         (deal_createdAt d).

(** [dealRouter.update]. *)
Definition update (ctx : Ctx) (now : Date) (input : UpdateInput) (st : Store)
  : Store * outcome TRPCError Deal :=
  match find_deal (update_id input) (tenantId ctx) st with
  | None => (st, Throw (not_found "Deal not found"))
  | Some existing =>
      let deal := apply_update now input existing in
      let st1 :=
        set_deals (update_rows deal_id (update_id input)
                               (apply_update now input) (deals st)) st in
      let st2 :=
        log_activity
          (mkActivity (tenantId ctx) (Some (deal_contactId deal))
                      (Some (deal_id deal)) (userId ctx)
                      "SYSTEM" "Deal updated") st1 in
      (st2, Return deal)
  end.

Definition set_stage (s : Id) (d : Deal) : Deal :=
  mkDeal (deal_id d) (deal_tenantId d) (deal_contactId d)
         (deal_pipelineId d) s (deal_title d) (deal_value d)
         (deal_currency d) (deal_probability d) (deal_expectedCloseDate d)
         (deal_actualCloseDate d) (deal_status d) (deal_createdAt d).

(** [dealRouter.moveStage]. *)
Definition moveStage (ctx : Ctx) (id stageId : Id) (st : Store)
  : Store * outcome TRPCError Deal :=
  match find_deal id (tenantId ctx) st with
  | None => (st, Throw (not_found "Deal not found"))
  | Some deal =>
    match find_stage_in stageId (deal_pipelineId deal) st with
    | None => (st, Throw (bad_request "Invalid stage for this pipeline"))
    | Some _ =>
        let updated := set_stage stageId deal in
        let st1 :=
          set_deals (update_rows deal_id id (set_stage stageId) (deals st)) st in
        let st2 :=
          log_activity
            (mkActivity (tenantId ctx) (Some (deal_contactId deal))
                        (Some (deal_id deal)) (userId ctx)
                        "SYSTEM" "Deal moved") st1 in
        (st2, Return updated)
    end
  end.

(** [dealRouter.delete]: a hard delete, no audit row. *)
Definition delete (ctx : Ctx) (id : Id) (st : Store)
  : Store * outcome TRPCError bool :=
  match find_deal id (tenantId ctx) st with
  | None => (st, Throw (not_found "Deal not found"))
  | Some _ => (set_deals (delete_rows deal_id id (deals st)) st, Return true)
  end.

(** The stage a deal references lies in the pipeline of the deal. *)
Definition stage_in_pipeline (st : Store) (d : Deal) : Prop :=
  exists s, In s (stages st)
            /\ stage_id s = deal_stageId d
            /\ stage_pipelineId s = deal_pipelineId d.

Definition all_deals_consistent (st : Store) : Prop :=
  forall d, In d (deals st) -> stage_in_pipeline st d.

(** Deal ids come from the counter and are unique. *)
Definition deals_wf (st : Store) : Prop :=
  NoDup (map deal_id (deals st))
  /\ (forall d, In d (deals st) -> deal_id d < nextId st).

Record StatsInput : Type := mkStatsInput {
  stats_pipelineId : option Id;
  stats_startDate : option Date;
  stats_endDate : option Date
}.

(** The [where] of the statistics.  Both date bounds are spread under the
    same key [createdAt], so when both are given the later spread (the
    upper bound) replaces the earlier one. *)
Definition stats_where (ctx : Ctx) (input : StatsInput) (d : Deal) : bool :=
  Nat.eqb (deal_tenantId d) (tenantId ctx)
  && opt_eqb (stats_pipelineId input) (deal_pipelineId d)
  && match stats_endDate input, stats_startDate input with
     | Some e, _ => Z.leb (deal_createdAt d) e
     | None, Some s => Z.leb s (deal_createdAt d)
     | None, None => true
     end.

Record Stats : Type := mkStats {
  totalDeals : nat;
  wonDeals : nat;
  lostDeals : nat;
  openDeals : nat;
  totalValue : Q;
  wonValue : Q;
  winRate : jsnum
}.

Definition has_status (s : DealStatus) (d : Deal) : bool :=
  DealStatus_eqb (deal_status d) s.

(** [aggregate({ _sum: { value: true } })] followed by [Number(sum || 0)]. *)
Definition sum_value (rows : list Deal) : Q :=
  fold_right (fun d acc => Qred (Qplus (deal_value d) acc)) (0 # 1)%Q rows.

(** [totalDeals > 0 ? ((wonDeals / (wonDeals + lostDeals)) * 100) : 0]. *)
Definition raw_winRate (total won lost : nat) : jsnum :=
  if Nat.ltb 0 total
  then mul (div (of_nat won) (add (of_nat won) (of_nat lost))) (of_nat 100)
  else of_nat 0.

(** [Math.round(x * 10) / 10]. *)
Definition round1 (x : jsnum) : jsnum :=
  div (round (mul x (of_nat 10))) (of_nat 10).

(** [dealRouter.stats]. *)
Definition stats (ctx : Ctx) (input : StatsInput) (st : Store) : Stats :=
  let rows := filter (stats_where ctx input) (deals st) in
  let total := List.length rows in
  let won := List.length (filter (has_status WON) rows) in
  let lost := List.length (filter (has_status LOST) rows) in
  let open := List.length (filter (has_status OPEN) rows) in
  mkStats total won lost open
          (sum_value rows)
          (sum_value (filter (has_status WON) rows))
          (round1 (raw_winRate total won lost)).

End DealRouter.

(* ------------------------------------------------------------------ *)
(** ** Pipeline router: the pipeline/stage engine *)

Module PipelineRouter.

Record StageInput : Type := mkStageInput {
  si_name : string;
  si_color : string
}.

Record CreateInput : Type := mkCreateInput {
  create_name : string;
  create_description : option string;
  create_stages : list StageInput
}.

Definition not_found (msg : string) : TRPCError := mkTRPCError NOT_FOUND msg.
Definition bad_request (msg : string) : TRPCError := mkTRPCError BAD_REQUEST msg.

Definition set_stages (ss : list PipelineStage) (st : Store) : Store :=
  mkStore (contacts st) (pipelines st) ss (deals st)
          (activities st) (nextId st).

(** [pipelines[0]?.order] after [orderBy: { order: 'desc' }, take: 1]:
    the largest order among the tenant's pipelines, if there is one. *)
Definition max_order (t : Id) (ps : list Pipeline) : option Z :=
  fold_left
    (fun acc p =>
       if Nat.eqb (pipeline_tenantId p) t
       then match acc with
            | Some m => Some (Z.max m (pipeline_order p))
            | None => Some (pipeline_order p)
            end
       else acc)
    ps None.

(** [stages.map((stage, index) => ({ name, color, order: index }))], the
    rows receiving consecutive fresh ids from [i] on. *)
Fixpoint stage_rows (pid : Id) (i : Id) (index : nat) (l : list StageInput)
  : list PipelineStage :=
  match l with
  | [] => []
  | s :: t =>
      mkStage i pid (si_name s) (si_color s) (Z.of_nat index)
      :: stage_rows pid (S i) (S index) t
  end.

(** The stages of a pipeline, [include: { stages: ... }]. *)
Definition stages_of (pid : Id) (st : Store) : list PipelineStage :=
  filter (fun s => Nat.eqb (stage_pipelineId s) pid) (stages st).

(** [pipelineRouter.create]; returns the pipeline with its stages. *)
Definition create (ctx : Ctx) (input : CreateInput) (st : Store)
  : Store * outcome TRPCError (Pipeline * list PipelineStage) :=
  let nextOrder :=
    (match max_order (tenantId ctx) (pipelines st) with
     | Some m => m
     | None => (-1)%Z
     end + 1)%Z in
  let pid := nextId st in
  let pipeline :=
    mkPipeline pid (tenantId ctx) (create_name input)
               (create_description input) nextOrder in
  let rows := stage_rows pid (S pid) 0 (create_stages input) in
  let st1 :=
    mkStore (contacts st) (pipelines st ++ [pipeline]) (stages st ++ rows)
            (deals st) (activities st)
            (S pid + List.length (create_stages input)) in
  (st1, Return (pipeline, stages_of pid st1)).

Record AddStageInput : Type := mkAddStageInput {
  add_pipelineId : Id;
  add_name : string;
  add_color : string;
  add_position : option Z
}.

(** [updateMany({ where: { pipelineId, order: { gte: order } },
                  data: { order: { increment: 1 } } })]. *)
Definition shift_up (pid : Id) (order : Z) (s : PipelineStage) : PipelineStage :=
  if Nat.eqb (stage_pipelineId s) pid && Z.leb order (stage_order s)
  then mkStage (stage_id s) (stage_pipelineId s) (stage_name s)
               (stage_color s) (stage_order s + 1)
  else s.

(** [pipelineRouter.addStage]. *)
Definition addStage (ctx : Ctx) (input : AddStageInput) (st : Store)
  : Store * outcome TRPCError PipelineStage :=
  match DealRouter.find_pipeline (add_pipelineId input) (tenantId ctx) st with
  | None => (st, Throw (not_found "Pipeline not found"))
  | Some _ =>
      let count := Z.of_nat (List.length (stages_of (add_pipelineId input) st)) in
      let order :=
        match add_position input with
        | Some p => p
        | None => count
        end in
      let shifted :=
        if Z.ltb order count
        then map (shift_up (add_pipelineId input) order) (stages st)
        else stages st in
      let stage :=
        mkStage (nextId st) (add_pipelineId input) (add_name input)
                (add_color input) order in
      let st1 :=
        mkStore (contacts st) (pipelines st) (shifted ++ [stage])
                (deals st) (activities st) (S (nextId st)) in
      (st1, Return stage)
  end.

(** [pipelineStage.findFirst({ where: { id, pipeline: { tenantId } } })]. *)
Definition find_stage (i t : Id) (st : Store) : option PipelineStage :=
  find (fun s =>
          Nat.eqb (stage_id s) i
          && existsb (fun p => Nat.eqb (pipeline_id p) (stage_pipelineId s)
                               && Nat.eqb (pipeline_tenantId p) t)
                     (pipelines st))
       (stages st).

(** [_count: { select: { deals: true } }] of a stage. *)
Definition deal_count (sid : Id) (st : Store) : nat :=
  List.length (filter (fun d => Nat.eqb (deal_stageId d) sid) (deals st)).

(** [UPDATE pipeline_stages SET "order" = "order" - 1
     WHERE pipeline_id = pid AND "order" > order]. *)
Definition shift_down (pid : Id) (order : Z) (s : PipelineStage) : PipelineStage :=
  if Nat.eqb (stage_pipelineId s) pid && Z.ltb order (stage_order s)
  then mkStage (stage_id s) (stage_pipelineId s) (stage_name s)
               (stage_color s) (stage_order s - 1)
  else s.

(** [pipelineRouter.deleteStage]. *)
Definition deleteStage (ctx : Ctx) (id : Id) (st : Store)
  : Store * outcome TRPCError bool :=
  match find_stage id (tenantId ctx) st with
  | None => (st, Throw (not_found "Stage not found"))
  | Some stage =>
      if Nat.ltb 0 (deal_count (stage_id stage) st)
      then (st, Throw (bad_request
              "Cannot delete stage with active deals. Move or delete deals first."))
      else
        let remaining := delete_rows stage_id id (stages st) in
        let reordered :=
          map (shift_down (stage_pipelineId stage) (stage_order stage))
              remaining in
        (set_stages reordered st, Return true)
  end.

(** The operations of the engine, as requests. *)
Inductive Op : Type :=
| OpCreate (ctx : Ctx) (input : CreateInput)
| OpAddStage (ctx : Ctx) (input : AddStageInput)
| OpDeleteStage (ctx : Ctx) (id : Id).

(** The store an operation leaves behind, whether it returns or throws. *)
Definition step (st : Store) (op : Op) : Store :=
  match op with
  | OpCreate ctx input => fst (create ctx input st)
  | OpAddStage ctx input => fst (addStage ctx input st)
  | OpDeleteStage ctx id => fst (deleteStage ctx id st)
  end.

Definition run (ops : list Op) (st : Store) : Store :=
  fold_left step ops st.

(** The order values of the stages of a pipeline, in table order. *)
Definition orders_of (pid : Id) (st : Store) : list Z :=
  map stage_order (stages_of pid st).

(** Pairwise distinct and exactly 0..N-1, N the number of values. *)
Definition dense (l : list Z) : Prop :=
  Permutation l (map Z.of_nat (seq 0 (List.length l))).

(** An [addStage] request names a position within the current stages, or
    none (append). *)
Definition position_in_range (input : AddStageInput) (st : Store) : Prop :=
  match add_position input with
  | Some p =>
      (0 <= p <= Z.of_nat (List.length (stages_of (add_pipelineId input) st)))%Z
  | None => True
  end.

(** Every [addStage] of a run names a position in range at the moment it
    is issued. *)
Fixpoint positions_in_range (ops : list Op) (st : Store) : Prop :=
  match ops with
  | [] => True
  | op :: rest =>
      match op with
      | OpAddStage _ input => position_in_range input st
      | _ => True
      end /\ positions_in_range rest (step st op)
  end.

(** Ids come from the counter and are unique among the stages. *)
Definition wf (st : Store) : Prop :=
  NoDup (map stage_id (stages st))
  /\ (forall s, In s (stages st) -> stage_id s < nextId st)
  /\ (forall p, In p (pipelines st) -> pipeline_id p < nextId st)
  /\ (forall s, In s (stages st) -> stage_pipelineId s < nextId st).

(** Every pipeline of the store has dense stage orders. *)
Definition all_dense (st : Store) : Prop :=
  forall pid, dense (orders_of pid st).

Definition empty_store : Store := mkStore [] [] [] [] [] 0.

End PipelineRouter.

(* ------------------------------------------------------------------ *)
(** ** Contact router: the list query *)

Module ContactRouter.

Record ListInput : Type := mkListInput {
  list_search : option string;
  list_tagIds : option (list Id);
  list_leadStatus : option string;
  list_assignedToId : option Id;
  list_cursor : option Id;
  list_limit : nat
}.

Definition contains_opt (icontains : string -> string -> bool)
  (field : option string) (needle : string) : bool :=
  match field with
  | Some v => icontains v needle
  | None => false
  end.

(** The [where] of the contact list.  [icontains] is the case-insensitive
    [contains] of the database. *)
Definition list_where (icontains : string -> string -> bool)
  (ctx : Ctx) (input : ListInput) (c : Contact) : bool :=
  Nat.eqb (contact_tenantId c) (tenantId ctx)
  && (if truthy (list_search input)
      then match list_search input with
           | Some q =>
               icontains (contact_firstName c) q
               || icontains (contact_lastName c) q
               || contains_opt icontains (contact_email c) q
               || contains_opt icontains (contact_company c) q
           | None => true
           end
      else true)
  && match list_leadStatus input with
     | Some s => String.eqb (contact_leadStatus c) s
     | None => true
     end
  && match list_assignedToId input with
     | Some a => match contact_assignedToId c with
                 | Some b => Nat.eqb a b
                 | None => false
                 end
     | None => true
     end
  && match list_tagIds input with
     | Some (t :: ts) =>
         existsb (fun x => existsb (Nat.eqb x) (t :: ts)) (contact_tagIds c)
     | _ => true
     end.

(** [contactRouter.list]. *)
Definition list_contacts (icontains : string -> string -> bool)
  (ctx : Ctx) (input : ListInput) (st : Store) : list Contact * option Id :=
  list_query contact_id contact_createdAt (list_where icontains ctx input)
    (list_limit input) (list_cursor input) (contacts st).

(** The request for the page that starts at a cursor. *)
Definition with_cursor (c : Id) (input : ListInput) : ListInput :=
  mkListInput (list_search input) (list_tagIds input) (list_leadStatus input)
              (list_assignedToId input) (Some c) (list_limit input).

End ContactRouter.

(* ------------------------------------------------------------------ *)
(** ** Outbound messages: the tables *)

Inductive EmailStatus : Type :=
| QUEUED | SENDING | SENT | DELIVERED | OPENED | CLICKED | BOUNCED | FAILED.

Definition EmailStatus_eqb (a b : EmailStatus) : bool :=
  match a, b with
  | QUEUED, QUEUED | SENDING, SENDING | SENT, SENT | DELIVERED, DELIVERED
  | OPENED, OPENED | CLICKED, CLICKED | BOUNCED, BOUNCED | FAILED, FAILED => true
  | _, _ => false
  end.

Inductive EmailProvider : Type := SENDGRID | MAILGUN | SES | SMTP | POSTMARK.

Record EmailAccount : Type := mkEmailAccount {
  account_id : Id;
  account_tenantId : Id;
  account_name : string;
  account_email : string;
  account_provider : EmailProvider;
  account_apiKey : option string;
  account_isDefault : bool
}.

Record Email : Type := mkEmail {
  email_id : Id;
  email_tenantId : Id;
  email_accountId : Id;
  email_contactId : option Id;
  email_to : list string;
  email_from : string;
  email_subject : string;
  email_body : string;
  email_bodyHtml : option string;
  email_trackingId : option string;
  email_status : EmailStatus;
  email_sentAt : option Date;
  email_openedAt : option Date;
  email_clickedAt : option Date;
  email_createdAt : Date
}.

Inductive SmsStatus : Type :=
| SMS_QUEUED | SMS_SENDING | SMS_SENT | SMS_DELIVERED | SMS_FAILED.

Definition SmsStatus_eqb (a b : SmsStatus) : bool :=
  match a, b with
  | SMS_QUEUED, SMS_QUEUED | SMS_SENDING, SMS_SENDING | SMS_SENT, SMS_SENT
  | SMS_DELIVERED, SMS_DELIVERED | SMS_FAILED, SMS_FAILED => true
  | _, _ => false
  end.

Inductive SmsProvider : Type := TWILIO | TELNYX | PLIVO.

Record SmsAccount : Type := mkSmsAccount {
  sms_account_id : Id;
  sms_account_tenantId : Id;
  sms_account_provider : SmsProvider;
  sms_account_sid : string;
  sms_account_authToken : string;
  sms_account_fromNumber : string
}.

Record SmsMessage : Type := mkSms {
  sms_id : Id;
  sms_tenantId : Id;
  sms_accountId : Id;
  sms_contactId : option Id;
  sms_to : string;
  sms_from : string;
  sms_body : string;
  sms_status : SmsStatus;
  sms_sentAt : option Date;
  sms_deliveredAt : option Date;
  sms_providerMessageId : option string;
  sms_createdAt : Date
}.

(** A call made to a provider SDK. *)
Inductive ProviderCall : Type :=
| SendGridSend (emailId : Id)
| SmtpSendMail (emailId : Id)
| TwilioCreate (smsId : Id).

(** The messaging tables, the calls made to providers so far, and whether
    the SendGrid client has had its API key set. *)
Record Mailbox : Type := mkMailbox {
  emailAccounts : list EmailAccount;
  emails : list Email;
  smsAccounts : list SmsAccount;
  smsMessages : list SmsMessage;
  calls : list ProviderCall;
  initialized : bool
}.

(** The providers: each call either succeeds or throws an error message.
    The message handed over (tracking pixel, rewritten links, headers) is a
    function of the row, so the row stands for it. *)
Record Providers : Type := mkProviders {
  sgMail_send : Email -> option string;
  smtp_sendMail : Email -> EmailAccount -> option string;
  twilio_create : SmsMessage -> SmsAccount -> string + string
}.

(** What the worker services throw. *)
Inductive WorkerError : Type :=
| MessageNotFound (id : Id)
| UnsupportedProvider
| NoApiKey
| ProviderError (msg : string)
| TypeError
| RecordNotFound.

(** [prisma.<table>.update]: throws when no row carries the id. *)
Definition prisma_update {R : Type} (rid : R -> Id) (i : Id) (f : R -> R)
  (rows : list R) : option (list R) :=
  if existsb (fun r => Nat.eqb (rid r) i) rows
  then Some (update_rows rid i f rows)
  else None.

Definition set_emails (es : list Email) (mb : Mailbox) : Mailbox :=
  mkMailbox (emailAccounts mb) es (smsAccounts mb) (smsMessages mb)
            (calls mb) (initialized mb).

Definition set_sms (ms : list SmsMessage) (mb : Mailbox) : Mailbox :=
  mkMailbox (emailAccounts mb) (emails mb) (smsAccounts mb) ms
            (calls mb) (initialized mb).

Definition record_call (c : ProviderCall) (mb : Mailbox) : Mailbox :=
  mkMailbox (emailAccounts mb) (emails mb) (smsAccounts mb) (smsMessages mb)
            (calls mb ++ [c]) (initialized mb).

Definition with_email_status (s : EmailStatus) (e : Email) : Email :=
  mkEmail (email_id e) (email_tenantId e) (email_accountId e)
          (email_contactId e) (email_to e) (email_from e) (email_subject e)
          (email_body e) (email_bodyHtml e) (email_trackingId e) s
          (email_sentAt e) (email_openedAt e) (email_clickedAt e)
          (email_createdAt e).

Definition with_email_sent (now : Date) (e : Email) : Email :=
  mkEmail (email_id e) (email_tenantId e) (email_accountId e)
          (email_contactId e) (email_to e) (email_from e) (email_subject e)
          (email_body e) (email_bodyHtml e) (email_trackingId e) SENT
          (Some now) (email_openedAt e) (email_clickedAt e)
          (email_createdAt e).

Definition with_email_opened (now : Date) (e : Email) : Email :=
  mkEmail (email_id e) (email_tenantId e) (email_accountId e)
          (email_contactId e) (email_to e) (email_from e) (email_subject e)
          (email_body e) (email_bodyHtml e) (email_trackingId e) OPENED
          (email_sentAt e) (Some now) (email_clickedAt e)
          (email_createdAt e).

Definition with_email_clicked (now : Date) (e : Email) : Email :=
  mkEmail (email_id e) (email_tenantId e) (email_accountId e)
          (email_contactId e) (email_to e) (email_from e) (email_subject e)
          (email_body e) (email_bodyHtml e) (email_trackingId e) CLICKED
          (email_sentAt e) (email_openedAt e) (Some now)
          (email_createdAt e).

(** [prisma.email.update({ where: { id }, data })] on the mailbox. *)
Definition update_email (i : Id) (f : Email -> Email) (mb : Mailbox)
  : option Mailbox :=
  option_map (fun es => set_emails es mb)
             (prisma_update email_id i f (emails mb)).

Definition with_sms_status (s : SmsStatus) (m : SmsMessage) : SmsMessage :=
  mkSms (sms_id m) (sms_tenantId m) (sms_accountId m) (sms_contactId m)
        (sms_to m) (sms_from m) (sms_body m) s (sms_sentAt m)
        (sms_deliveredAt m) (sms_providerMessageId m) (sms_createdAt m).

Definition with_sms_sent (now : Date) (sid : string) (m : SmsMessage)
  : SmsMessage :=
  mkSms (sms_id m) (sms_tenantId m) (sms_accountId m) (sms_contactId m)
        (sms_to m) (sms_from m) (sms_body m) SMS_SENT (Some now)
        (sms_deliveredAt m) (Some sid) (sms_createdAt m).

Definition update_sms (i : Id) (f : SmsMessage -> SmsMessage) (mb : Mailbox)
  : option Mailbox :=
  option_map (fun ms => set_sms ms mb)
             (prisma_update sms_id i f (smsMessages mb)).

(* ------------------------------------------------------------------ *)
(** ** Email sender (worker) *)

Module EmailSender.

(** [prisma.email.findUnique({ where: { id }, include: { account: true } })]:
    the row; its account is looked up by [account_of]. *)
Definition find_email (i : Id) (mb : Mailbox) : option Email :=
  find (fun e => Nat.eqb (email_id e) i) (emails mb).

Definition account_of (e : Email) (mb : Mailbox) : option EmailAccount :=
  find (fun a => Nat.eqb (account_id a) (email_accountId e)) (emailAccounts mb).

(** [ensureInitialized]: the API key is set on first use only. *)
Definition ensureInitialized (mb : Mailbox) : Mailbox :=
  mkMailbox (emailAccounts mb) (emails mb) (smsAccounts mb) (smsMessages mb)
            (calls mb) true.

(** [sendViaSMTP]. *)
Definition sendViaSMTP (env : Providers) (now : Date) (email : Email)
  (account : EmailAccount) (mb : Mailbox) : Mailbox * outcome WorkerError unit :=
  let mb1 := record_call (SmtpSendMail (email_id email)) mb in
  match smtp_sendMail env email account with
  | Some err => (mb1, Throw (ProviderError err))
  | None =>
      match update_email (email_id email) (with_email_sent now) mb1 with
      | Some mb2 => (mb2, Return tt)
      | None => (mb1, Throw RecordNotFound)
      end
  end.

(** The [try] block of [send]. *)
Definition send_try (env : Providers) (now : Date) (emailId : Id)
  (mb : Mailbox) : Mailbox * outcome WorkerError unit :=
  match find_email emailId mb with
  | None => (mb, Throw (MessageNotFound emailId))
  | Some email =>
    if negb (EmailStatus_eqb (email_status email) QUEUED)
    then (mb, Return tt)
    else
      match update_email emailId (with_email_status SENDING) mb with
      | None => (mb, Throw RecordNotFound)
      | Some mb1 =>
        match account_of email mb1 with
        | None => (mb1, Throw TypeError)
        | Some account =>
          match account_provider account with
          | SENDGRID =>
              if truthy (account_apiKey account)
              then
                let mb2 := ensureInitialized mb1 in
                let mb3 := record_call (SendGridSend emailId) mb2 in
                match sgMail_send env email with
                | Some err => (mb3, Throw (ProviderError err))
                | None =>
                    match update_email emailId (with_email_sent now) mb3 with
                    | Some mb4 => (mb4, Return tt)
                    | None => (mb3, Throw RecordNotFound)
                    end
                end
              else (mb1, Throw NoApiKey)
          | SMTP => sendViaSMTP env now email account mb1
          | _ => (mb1, Throw UnsupportedProvider)
          end
        end
      end
  end.

(** [EmailSender.send]: the [try] block, and the [catch] that marks the
    message FAILED and throws the error again. *)
Definition send (env : Providers) (now : Date) (emailId : Id) (mb : Mailbox)
  : Mailbox * outcome WorkerError unit :=
  match send_try env now emailId mb with
  | (mb1, Throw error) =>
      match update_email emailId (with_email_status FAILED) mb1 with
      | Some mb2 => (mb2, Throw error)
      | None => (mb1, Throw RecordNotFound)
      end
  | (mb1, Return v) => (mb1, Return v)
  end.

(** The batch of [processQueue]: the ten oldest QUEUED rows. *)
Definition queued (mb : Mailbox) : list Email :=
  firstn 10
    (sort_asc email_createdAt
       (filter (fun e => EmailStatus_eqb (email_status e) QUEUED) (emails mb))).

(** The loop of [processQueue]: each [send] sits in its own [try], the
    [catch] only logs. *)
Fixpoint process_items (env : Providers) (now : Date) (items : list Email)
  (mb : Mailbox) : Mailbox * outcome WorkerError unit :=
  match items with
  | [] => (mb, Return tt)
  | email :: rest =>
      match send env now (email_id email) mb with
      | (mb1, Throw _) => process_items env now rest mb1
      | (mb1, Return _) => process_items env now rest mb1
      end
  end.

(** [EmailSender.processQueue]. *)
Definition processQueue (env : Providers) (now : Date) (mb : Mailbox)
  : Mailbox * outcome WorkerError unit :=
  process_items env now (queued mb) mb.

(** Whether the provider accepts the message of a row: the account exists,
    is a SendGrid account with a key or an SMTP account, and the call does
    not throw. *)
Definition delivers (env : Providers) (mb : Mailbox) (e : Email) : bool :=
  match account_of e mb with
  | None => false
  | Some account =>
      match account_provider account with
      | SENDGRID =>
          truthy (account_apiKey account)
          && match sgMail_send env e with Some _ => false | None => true end
      | SMTP =>
          match smtp_sendMail env e account with Some _ => false | None => true end
      | _ => false
      end
  end.

(** The provider is reached for a row and its call throws. *)
Definition provider_throws (env : Providers) (mb : Mailbox) (e : Email)
  (err : string) : Prop :=
  exists account,
    account_of e mb = Some account
    /\ ((account_provider account = SENDGRID
         /\ truthy (account_apiKey account) = true
         /\ sgMail_send env e = Some err)
        \/ (account_provider account = SMTP
            /\ smtp_sendMail env e account = Some err)).

(** One webhook event of SendGrid. *)
Record SendGridEvent : Type := mkEvent {
  ev_event : string;
  ev_tracking_id : option string;
  ev_customArgs_tracking_id : option string
}.

(** [prisma.email.findFirst({ where: { trackingId } })]. *)
Definition find_by_tracking (t : string) (mb : Mailbox) : option Email :=
  find (fun e => match email_trackingId e with
                 | Some x => String.eqb x t
                 | None => false
                 end) (emails mb).

Definition patch_email (i : Id) (f : Email -> Email) (mb : Mailbox) : Mailbox :=
  set_emails (update_rows email_id i f (emails mb)) mb.

(** The body of the loop of [handleSendGridWebhook]. *)
Definition handle_event (now : Date) (mb : Mailbox) (ev : SendGridEvent)
  : Mailbox :=
  match js_or (ev_tracking_id ev) (ev_customArgs_tracking_id ev) with
  | Some trackingId =>
    if negb (truthy (Some trackingId)) then mb
    else
      match find_by_tracking trackingId mb with
      | None => mb
      | Some email =>
          if String.eqb (ev_event ev) "delivered"
          then patch_email (email_id email) (with_email_status DELIVERED) mb
          else if String.eqb (ev_event ev) "open"
          then match email_openedAt email with
               | None => patch_email (email_id email) (with_email_opened now) mb
               | Some _ => mb
               end
          else if String.eqb (ev_event ev) "click"
          then match email_clickedAt email with
               | None => patch_email (email_id email) (with_email_clicked now) mb
               | Some _ => mb
               end
          else if String.eqb (ev_event ev) "bounce"
                  || String.eqb (ev_event ev) "dropped"
          then patch_email (email_id email) (with_email_status BOUNCED) mb
          else mb
      end
  | None => mb
  end.

(** [handleSendGridWebhook]. *)
Definition handleSendGridWebhook (now : Date) (events : list SendGridEvent)
  (mb : Mailbox) : Mailbox :=
  fold_left (handle_event now) events mb.

Definition open_event (t : string) : SendGridEvent :=
  mkEvent "open" (Some t) None.
Definition click_event (t : string) : SendGridEvent :=
  mkEvent "click" (Some t) None.
Definition delivered_event (t : string) : SendGridEvent :=
  mkEvent "delivered" (Some t) None.
Definition bounce_event (t : string) : SendGridEvent :=
  mkEvent "bounce" (Some t) None.
Definition dropped_event (t : string) : SendGridEvent :=
  mkEvent "dropped" (Some t) None.

End EmailSender.

(* ------------------------------------------------------------------ *)
(** ** Email router: list and tracking *)

Module EmailRouter.

Record ListInput : Type := mkListInput {
  list_contactId : option Id;
  list_status : option EmailStatus;
  list_cursor : option Id;
  list_limit : nat
}.

Definition list_where (ctx : Ctx) (input : ListInput) (e : Email) : bool :=
  Nat.eqb (email_tenantId e) (tenantId ctx)
  && match list_contactId input with
     | Some c => match email_contactId e with
                 | Some c' => Nat.eqb c c'
                 | None => false
                 end
     | None => true
     end
  && match list_status input with
     | Some s => EmailStatus_eqb (email_status e) s
     | None => true
     end.

(** [emailRouter.list]. *)
Definition list_emails (ctx : Ctx) (input : ListInput) (mb : Mailbox)
  : list Email * option Id :=
  list_query email_id email_createdAt (list_where ctx input)
    (list_limit input) (list_cursor input) (emails mb).

(** The request for the page that starts at a cursor. *)
Definition with_cursor (c : Id) (input : ListInput) : ListInput :=
  mkListInput (list_contactId input) (list_status input) (Some c)
              (list_limit input).

(** [email.findFirst({ where: { trackingId, tenantId } })]. *)
Definition find_tracked (t : string) (tenant : Id) (mb : Mailbox)
  : option Email :=
  find (fun e => match email_trackingId e with
                 | Some x => String.eqb x t
                 | None => false
                 end && Nat.eqb (email_tenantId e) tenant) (emails mb).

(** [emailRouter.trackOpen]. *)
Definition trackOpen (ctx : Ctx) (now : Date) (trackingId : string)
  (mb : Mailbox) : Mailbox :=
  match find_tracked trackingId (tenantId ctx) mb with
  | Some email =>
      match email_openedAt email with
      | None =>
          EmailSender.patch_email (email_id email) (with_email_opened now) mb
      | Some _ => mb
      end
  | None => mb
  end.

(** [emailRouter.trackClick]. *)
Definition trackClick (ctx : Ctx) (now : Date) (trackingId : string)
  (mb : Mailbox) : Mailbox :=
  match find_tracked trackingId (tenantId ctx) mb with
  | Some email =>
      match email_clickedAt email with
      | None =>
          EmailSender.patch_email (email_id email) (with_email_clicked now) mb
      | Some _ => mb
      end
  | None => mb
  end.

End EmailRouter.

(* ------------------------------------------------------------------ *)
(** ** SMS sender (worker) *)

Module SmsSender.

Definition find_sms (i : Id) (mb : Mailbox) : option SmsMessage :=
  find (fun m => Nat.eqb (sms_id m) i) (smsMessages mb).

Definition account_of (m : SmsMessage) (mb : Mailbox) : option SmsAccount :=
  find (fun a => Nat.eqb (sms_account_id a) (sms_accountId m)) (smsAccounts mb).

(** [sendViaTwilio]. *)
Definition sendViaTwilio (env : Providers) (now : Date) (sms : SmsMessage)
  (account : SmsAccount) (mb : Mailbox) : Mailbox * outcome WorkerError unit :=
  let mb1 := record_call (TwilioCreate (sms_id sms)) mb in
  match twilio_create env sms account with
  | inr err => (mb1, Throw (ProviderError err))
  | inl sid =>
      match update_sms (sms_id sms) (with_sms_sent now sid) mb1 with
      | Some mb2 => (mb2, Return tt)
      | None => (mb1, Throw RecordNotFound)
      end
  end.

(** The [try] block of [send]. *)
Definition send_try (env : Providers) (now : Date) (smsId : Id)
  (mb : Mailbox) : Mailbox * outcome WorkerError unit :=
  match find_sms smsId mb with
  | None => (mb, Throw (MessageNotFound smsId))
  | Some sms =>
    if negb (SmsStatus_eqb (sms_status sms) SMS_QUEUED)
    then (mb, Return tt)
    else
      match update_sms smsId (with_sms_status SMS_SENDING) mb with
      | None => (mb, Throw RecordNotFound)
      | Some mb1 =>
        match account_of sms mb1 with
        | None => (mb1, Throw TypeError)
        | Some account =>
          match sms_account_provider account with
          | TWILIO => sendViaTwilio env now sms account mb1
          | _ => (mb1, Throw UnsupportedProvider)
          end
        end
      end
  end.

(** [SmsSender.send]. *)
Definition send (env : Providers) (now : Date) (smsId : Id) (mb : Mailbox)
  : Mailbox * outcome WorkerError unit :=
  match send_try env now smsId mb with
  | (mb1, Throw error) =>
      match update_sms smsId (with_sms_status SMS_FAILED) mb1 with
      | Some mb2 => (mb2, Throw error)
      | None => (mb1, Throw RecordNotFound)
      end
  | (mb1, Return v) => (mb1, Return v)
  end.

Definition queued (mb : Mailbox) : list SmsMessage :=
  firstn 10
    (sort_asc sms_createdAt
       (filter (fun m => SmsStatus_eqb (sms_status m) SMS_QUEUED)
               (smsMessages mb))).

Fixpoint process_items (env : Providers) (now : Date) (items : list SmsMessage)
  (mb : Mailbox) : Mailbox * outcome WorkerError unit :=
  match items with
  | [] => (mb, Return tt)
  | sms :: rest =>
      match send env now (sms_id sms) mb with
      | (mb1, Throw _) => process_items env now rest mb1
      | (mb1, Return _) => process_items env now rest mb1
      end
  end.

(** [SmsSender.processQueue]. *)
Definition processQueue (env : Providers) (now : Date) (mb : Mailbox)
  : Mailbox * outcome WorkerError unit :=
  process_items env now (queued mb) mb.

(** Whether Twilio accepts the message of a row. *)
Definition delivers (env : Providers) (mb : Mailbox) (m : SmsMessage) : bool :=
  match account_of m mb with
  | None => false
  | Some account =>
      match sms_account_provider account with
      | TWILIO =>
          match twilio_create env m account with inl _ => true | inr _ => false end
      | _ => false
      end
  end.

(** Twilio is reached for a row and its call throws. *)
Definition provider_throws (env : Providers) (mb : Mailbox) (m : SmsMessage)
  (err : string) : Prop :=
  exists account,
    account_of m mb = Some account
    /\ sms_account_provider account = TWILIO
    /\ twilio_create env m account = inr err.

(** What a dispatch does to the rows of a message: SENT with the send time
    and the provider's message id, or FAILED. *)
Definition dispatched (env : Providers) (now : Date) (mb : Mailbox)
  (m : SmsMessage) : SmsMessage -> SmsMessage :=
  match account_of m mb with
  | Some account =>
      match sms_account_provider account with
      | TWILIO =>
          match twilio_create env m account with
          | inl sid => with_sms_sent now sid
          | inr _ => with_sms_status SMS_FAILED
          end
      | _ => with_sms_status SMS_FAILED
      end
  | None => with_sms_status SMS_FAILED
  end.

End SmsSender.

(* ------------------------------------------------------------------ *)
(** ** Scenarios *)

Module Scenario.

Definition ctx1 : Ctx := mkCtx 1 7.

Definition open_deal : Deal :=
  mkDeal 10 1 2 3 4 "Renewal" (100 # 1) "USD" None None None OPEN 1000%Z.

(** One tenant, one deal, still open. *)
Definition store_one_open : Store := mkStore [] [] [] [open_deal] [] 11.

Definition all_deals : DealRouter.StatsInput :=
  DealRouter.mkStatsInput None None None.

Definition grey : string := "#6B7280".

(** A pipeline with the single stage New. *)
Definition sales : PipelineRouter.CreateInput :=
  PipelineRouter.mkCreateInput "Sales" None
    [PipelineRouter.mkStageInput "New" grey].

(** A pipeline with the stages New, Qualified, Won. *)
Definition sales3 : PipelineRouter.CreateInput :=
  PipelineRouter.mkCreateInput "Sales" None
    [PipelineRouter.mkStageInput "New" grey;
     PipelineRouter.mkStageInput "Qualified" grey;
     PipelineRouter.mkStageInput "Won" grey].

(** Create the one-stage pipeline, then add a stage at position 5. *)
Definition ops_beyond_end : list PipelineRouter.Op :=
  [PipelineRouter.OpCreate ctx1 sales;
   PipelineRouter.OpAddStage ctx1
     (PipelineRouter.mkAddStageInput 0 "Won" grey (Some 5%Z))].

(** Create the one-stage pipeline, then add a stage at position -1. *)
Definition ops_negative : list PipelineRouter.Op :=
  [PipelineRouter.OpCreate ctx1 sales;
   PipelineRouter.OpAddStage ctx1
     (PipelineRouter.mkAddStageInput 0 "Lead" grey (Some (-1)%Z))].

(** Create three stages, insert in the middle, delete the first stage,
    append one. *)
Definition ops_in_range : list PipelineRouter.Op :=
  [PipelineRouter.OpCreate ctx1 sales3;
   PipelineRouter.OpAddStage ctx1
     (PipelineRouter.mkAddStageInput 0 "Demo" grey (Some 1%Z));
   PipelineRouter.OpDeleteStage ctx1 1;
   PipelineRouter.OpAddStage ctx1
     (PipelineRouter.mkAddStageInput 0 "Lost" grey None)].

Definition contact2 : Contact :=
  mkContact 2 1 "Ada" "Byron" None None "NEW" None [] 500%Z.

(** A second pipeline with the single stage Inbox. *)
Definition support : PipelineRouter.CreateInput :=
  PipelineRouter.mkCreateInput "Support" None
    [PipelineRouter.mkStageInput "Inbox" grey].

(** The store after creating the pipeline Sales (id 0, stages 1, 2, 3) and
    the pipeline Support (id 4, stage 5), with one contact. *)
Definition store_sales3 : Store :=
  let st := PipelineRouter.run
              [PipelineRouter.OpCreate ctx1 sales3;
               PipelineRouter.OpCreate ctx1 support]
              PipelineRouter.empty_store in
  mkStore [contact2] (pipelines st) (stages st) [] [] (nextId st).

Definition deal_new : DealRouter.CreateInput :=
  DealRouter.mkCreateInput 2 0 1 "Renewal" (100 # 1) "USD" None None.

(** The same store with a deal in stage New (stage id 1, deal id 6). *)
Definition store_with_deal : Store :=
  fst (DealRouter.create ctx1 1000%Z deal_new store_sales3).

Definition the_deal : Deal :=
  mkDeal 6 1 2 0 1 "Renewal" (100 # 1) "USD" None None None OPEN 1000%Z.

Definition set_status (s : DealStatus) : DealRouter.UpdateInput :=
  DealRouter.mkUpdateInput 6 None None None None (Some s).

(** The deal is won at time 2000. *)
Definition store_won : Store :=
  fst (DealRouter.update ctx1 2000%Z (set_status WON) store_with_deal).

(** The won deal is set back to OPEN at time 3000. *)
Definition store_reopened : Store :=
  fst (DealRouter.update ctx1 3000%Z (set_status OPEN) store_won).


Definition sendgrid_account : EmailAccount :=
  mkEmailAccount 1 1 "Main" "sales@example.com" SENDGRID (Some "SG.key"%string) true.

Definition twilio_account : SmsAccount :=
  mkSmsAccount 2 1 TWILIO "AC1" "token" "+15550000000".

Definition email_row (i : Id) (t : string) (s : EmailStatus) (c : Date) : Email :=
  mkEmail i 1 1 None ["ada@example.com"%string] "sales@example.com" "Hello" "Hi"
          None (Some t) s None None None c.

Definition sms_row (i : Id) (s : SmsStatus) (c : Date) : SmsMessage :=
  mkSms i 1 2 None "+15551111111" "+15550000000" "Hi" s None None None c.

(** Two queued emails and one already sent; two queued SMS and one already
    delivered. *)
Definition mailbox : Mailbox :=
  mkMailbox [sendgrid_account]
            [email_row 10 "t10" QUEUED 100%Z;
             email_row 11 "t11" QUEUED 200%Z;
             email_row 12 "t12" SENT 50%Z]
            [twilio_account]
            [sms_row 20 SMS_QUEUED 100%Z;
             sms_row 21 SMS_QUEUED 200%Z;
             sms_row 22 SMS_DELIVERED 50%Z]
            [] false.

(** Providers that reject email 10 and SMS 20 and accept everything else. *)
Definition flaky : Providers :=
  mkProviders
    (fun e => if Nat.eqb (email_id e) 10 then Some "rejected"%string else None)
    (fun _ _ => None)
    (fun m _ => if Nat.eqb (sms_id m) 20 then inr "rejected"%string else inl "SM1"%string).

Definition deal_at (i : Id) (c : Date) : Deal :=
  mkDeal i 1 2 0 1 "Renewal" (100 # 1) "USD" None None None OPEN c.

(** Three deals of the tenant, created at times 1000, 2000 and 3000. *)
Definition store_three_deals : Store :=
  mkStore (contacts store_sales3) (pipelines store_sales3)
          (stages store_sales3)
          [deal_at 6 1000%Z; deal_at 7 2000%Z; deal_at 8 3000%Z] [] 9.

(** The first page of two deals. *)
Definition first_two : DealRouter.ListInput :=
  DealRouter.mkListInput None None None None None 2.

End Scenario.

(** [won / (won + lost) * 100] to one decimal, halves up: the value the
    win rate is meant to have when some deal is closed. *)
Definition rounded_rate (won lost : nat) : Q :=
  (inject_Z (Qfloor
     (inject_Z (Z.of_nat won) / inject_Z (Z.of_nat (won + lost))
      * inject_Z 100 * inject_Z 10 + (1 # 2)))
   / inject_Z 10)%Q.


(* ------------------------------------------------------------------ *)
(** * Properties *)

(** ** Deal statistics *)

Section WinRate.
Import JsNum DealRouter.

Lemma filter_length_le {A : Type} (f : A -> bool) (l : list A) :
  List.length (filter f l) <= List.length l.
Proof.
  induction l as [|x t IH]; simpl; [lia|].
  destruct (f x); simpl; lia.
Qed.

(** The raw rate is 0/0 as soon as there are deals but none is closed. *)
Lemma raw_winRate_nan (total : nat) :
  0 < total -> raw_winRate total 0 0 = NaN.
Proof.
  intros H. unfold raw_winRate.
  destruct (Nat.ltb_spec 0 total) as [_|C]; [reflexivity|lia].
Qed.

Lemma round1_nan : round1 NaN = NaN.
Proof. reflexivity. Qed.

(** With deals in range and no closed deal among them, the reported win
    rate is NaN. *)
Lemma stats_winRate_no_closed (ctx : Ctx) (input : StatsInput) (st : Store) :
  0 < totalDeals (stats ctx input st) ->
  wonDeals (stats ctx input st) + lostDeals (stats ctx input st) = 0 ->
  winRate (stats ctx input st) = NaN.
Proof.
  unfold stats; simpl. intros Ht Hz.
  assert (Hw : List.length (filter (has_status WON)
                 (filter (stats_where ctx input) (deals st))) = 0) by lia.
  assert (Hl : List.length (filter (has_status LOST)
                 (filter (stats_where ctx input) (deals st))) = 0) by lia.
  rewrite Hw, Hl, raw_winRate_nan by exact Ht. reflexivity.
Qed.

(** Without any deal in range the guard applies and the rate is 0. *)
Lemma stats_winRate_no_deals (ctx : Ctx) (input : StatsInput) (st : Store) :
  totalDeals (stats ctx input st) = 0 ->
  winRate (stats ctx input st) = Fin 0.
Proof.
  unfold stats; simpl. intros Ht. rewrite Ht. reflexivity.
Qed.

Lemma Qeq_bool_pos_false (n : nat) :
  0 < n -> Qeq_bool (Qred (inject_Z (Z.of_nat n))) 0 = false.
Proof.
  intros H. apply not_true_is_false. intros C.
  apply Qeq_bool_eq in C. rewrite Qred_correct in C.
  unfold Qeq in C; simpl in C. lia.
Qed.

Lemma round1_raw_closed (total won lost : nat) :
  0 < total -> 0 < won + lost ->
  same (round1 (raw_winRate total won lost)) (Fin (rounded_rate won lost)).
Proof.
  intros Ht Hc. unfold raw_winRate.
  destruct (Nat.ltb_spec 0 total) as [_|C]; [|lia].
  unfold of_nat, add, div.
  assert (E : Qred (inject_Z (Z.of_nat won) + inject_Z (Z.of_nat lost))
              = Qred (inject_Z (Z.of_nat (won + lost)))).
  { apply Qred_complete. rewrite Nat2Z.inj_add, inject_Z_plus. reflexivity. }
  rewrite E, Qeq_bool_pos_false by exact Hc.
  unfold round1, mul, round, div, of_nat.
  change (Qeq_bool (inject_Z (Z.of_nat 10)) 0) with false.
  cbv beta iota. unfold same, rounded_rate.
  rewrite Qred_correct.
  apply Qdiv_comp; [|reflexivity].
  apply inject_Z_injective. apply Qfloor_comp.
  rewrite !Qred_correct. reflexivity.
Qed.

(** When some deal is closed the rate is the rounded quotient. *)
Lemma stats_winRate_closed (ctx : Ctx) (input : StatsInput) (st : Store) :
  0 < wonDeals (stats ctx input st) + lostDeals (stats ctx input st) ->
  same (winRate (stats ctx input st))
       (Fin (rounded_rate (wonDeals (stats ctx input st))
                          (lostDeals (stats ctx input st)))).
Proof.
  unfold stats; simpl. intros Hc.
  apply round1_raw_closed; [|exact Hc].
  pose proof (filter_length_le (has_status WON)
                (filter (stats_where ctx input) (deals st))).
  pose proof (filter_length_le (has_status LOST)
                (filter (stats_where ctx input) (deals st))).
  lia.
Qed.

(** C1.  The statistics of a tenant whose only deal is still open: one deal
    in total, none won, none lost, and the reported win rate is NaN where
    the rate is specified to be 0 for won + lost = 0.  The guard of the
    source tests [totalDeals > 0], not [won + lost > 0]. *)
Theorem stats_open_only_winRate_nan :
  let s := stats Scenario.ctx1 Scenario.all_deals Scenario.store_one_open in
  totalDeals s = 1 /\ wonDeals s + lostDeals s = 0 /\ winRate s = NaN
  /\ ~ same (winRate s) (Fin 0).
Proof.
  vm_compute. repeat split; auto.
Qed.

End WinRate.

(** ** Stage orders *)

Section StageOrders.
Import PipelineRouter.

Lemma NoDup_map_of_nat (l : list nat) : NoDup l -> NoDup (map Z.of_nat l).
Proof.
  intros H. apply NoDup_map_NoDup_ForallPairs; [|exact H].
  intros x y _ _ E. apply Nat2Z.inj. exact E.
Qed.

(** Density, read as: no value twice, every value below the count. *)
Lemma dense_iff (l : list Z) :
  dense l <->
  NoDup l /\ (forall o, In o l -> (0 <= o < Z.of_nat (List.length l))%Z).
Proof.
  unfold dense. split.
  - intros P. split.
    + apply Permutation_sym in P.
      eapply Permutation_NoDup; [exact P|].
      apply NoDup_map_of_nat, seq_NoDup.
    + intros o Ho. eapply Permutation_in in Ho; [|exact P].
      apply in_map_iff in Ho. destruct Ho as (n & <- & Hn).
      apply in_seq in Hn. lia.
  - intros [N R]. apply NoDup_Permutation_bis; [exact N| |].
    + rewrite length_map, length_seq. lia.
    + intros o Ho. specialize (R o Ho).
      apply in_map_iff. exists (Z.to_nat o). split; [lia|].
      apply in_seq. lia.
Qed.

Lemma dense_nil : dense [].
Proof. apply Permutation_refl. Qed.

Lemma stage_rows_orders (pid i k : nat) (l : list StageInput) :
  map stage_order (stage_rows pid i k l) = map Z.of_nat (seq k (List.length l)).
Proof.
  revert i k. induction l as [|s t IH]; intros i k; simpl; [reflexivity|].
  rewrite IH. reflexivity.
Qed.

Lemma stage_rows_ids (pid i k : nat) (l : list StageInput) :
  map stage_id (stage_rows pid i k l) = seq i (List.length l).
Proof.
  revert i k. induction l as [|s t IH]; intros i k; simpl; [reflexivity|].
  rewrite IH. reflexivity.
Qed.

Lemma stage_rows_pipeline (pid i k : nat) (l : list StageInput) (s : PipelineStage) :
  In s (stage_rows pid i k l) -> stage_pipelineId s = pid.
Proof.
  revert i k. induction l as [|x t IH]; intros i k; simpl; [tauto|].
  intros [<-|H]; [reflexivity|]. eapply IH; exact H.
Qed.

Lemma filter_all {A : Type} (f : A -> bool) (l : list A) :
  (forall x, In x l -> f x = true) -> filter f l = l.
Proof.
  induction l as [|x t IH]; simpl; intros H; [reflexivity|].
  rewrite (H x (or_introl eq_refl)). f_equal. apply IH. auto.
Qed.

Lemma filter_none {A : Type} (f : A -> bool) (l : list A) :
  (forall x, In x l -> f x = false) -> filter f l = [].
Proof.
  induction l as [|x t IH]; simpl; intros H; [reflexivity|].
  rewrite (H x (or_introl eq_refl)). apply IH. auto.
Qed.

(** [create] leaves the other pipelines alone and gives the new one the
    orders 0..n-1. *)
Lemma create_orders (ctx : Ctx) (input : CreateInput) (st : Store) (pid : Id) :
  wf st ->
  orders_of pid (fst (create ctx input st)) =
  if Nat.eqb pid (nextId st)
  then map Z.of_nat (seq 0 (List.length (create_stages input)))
  else orders_of pid st.
Proof.
  intros (_ & _ & _ & Hp). unfold orders_of, stages_of, create; simpl.
  rewrite filter_app, map_app.
  destruct (Nat.eqb_spec pid (nextId st)) as [->|Hne].
  - rewrite (filter_none _ (stages st)).
    + rewrite filter_all.
      * simpl. apply stage_rows_orders.
      * intros s Hs. apply stage_rows_pipeline in Hs. rewrite Hs.
        apply Nat.eqb_refl.
    + intros s Hs. apply Nat.eqb_neq. specialize (Hp s Hs). lia.
  - rewrite (filter_none _ (stage_rows _ _ _ _)).
    + rewrite app_nil_r. reflexivity.
    + intros s Hs. apply stage_rows_pipeline in Hs. rewrite Hs.
      apply Nat.eqb_neq. auto.
Qed.

Lemma create_wf (ctx : Ctx) (input : CreateInput) (st : Store) :
  wf st -> wf (fst (create ctx input st)).
Proof.
  intros (Hn & Hs & Hp & Hsp). unfold wf, create; simpl.
  repeat split.
  - rewrite map_app, stage_rows_ids.
    apply NoDup_app; [exact Hn|apply seq_NoDup|].
    intros x Hx Hy. apply in_map_iff in Hx. destruct Hx as (s & <- & Hin).
    apply in_seq in Hy. specialize (Hs s Hin). lia.
  - intros s Hin. apply in_app_or in Hin. destruct Hin as [Hin|Hin].
    + specialize (Hs s Hin). lia.
    + apply (in_map stage_id) in Hin. rewrite stage_rows_ids in Hin.
      apply in_seq in Hin. lia.
  - intros p Hin. apply in_app_or in Hin. destruct Hin as [Hin|[<-|[]]].
    + specialize (Hp p Hin). lia.
    + simpl. lia.
  - intros s Hin. apply in_app_or in Hin. destruct Hin as [Hin|Hin].
    + specialize (Hsp s Hin). lia.
    + apply stage_rows_pipeline in Hin. lia.
Qed.


Lemma orders_shift_up (pid pid0 : Id) (order : Z) (rows : list PipelineStage) :
  map stage_order
      (filter (fun s => Nat.eqb (stage_pipelineId s) pid)
              (map (shift_up pid0 order) rows)) =
  if Nat.eqb pid pid0
  then map (fun o => if Z.leb order o then (o + 1)%Z else o)
           (map stage_order
                (filter (fun s => Nat.eqb (stage_pipelineId s) pid) rows))
  else map stage_order
           (filter (fun s => Nat.eqb (stage_pipelineId s) pid) rows).
Proof.
  induction rows as [|s t IH]; simpl.
  - destruct (Nat.eqb pid pid0); reflexivity.
  - assert (Hp : stage_pipelineId (shift_up pid0 order s) = stage_pipelineId s).
    { unfold shift_up. destruct (_ && _); reflexivity. }
    rewrite Hp.
    destruct (Nat.eqb_spec (stage_pipelineId s) pid) as [E|N]; simpl;
      rewrite IH; [|reflexivity].
    destruct (Nat.eqb_spec pid pid0) as [E1|N1]; simpl; f_equal.
    + unfold shift_up. rewrite E, E1, Nat.eqb_refl. simpl.
      destruct (Z.leb order (stage_order s)); reflexivity.
    + unfold shift_up. rewrite E.
      destruct (Nat.eqb_spec pid pid0); [contradiction|reflexivity].
Qed.

Lemma orders_shift_down (pid pid0 : Id) (order : Z) (rows : list PipelineStage) :
  map stage_order
      (filter (fun s => Nat.eqb (stage_pipelineId s) pid)
              (map (shift_down pid0 order) rows)) =
  if Nat.eqb pid pid0
  then map (fun o => if Z.ltb order o then (o - 1)%Z else o)
           (map stage_order
                (filter (fun s => Nat.eqb (stage_pipelineId s) pid) rows))
  else map stage_order
           (filter (fun s => Nat.eqb (stage_pipelineId s) pid) rows).
Proof.
  induction rows as [|s t IH]; simpl.
  - destruct (Nat.eqb pid pid0); reflexivity.
  - assert (Hp : stage_pipelineId (shift_down pid0 order s) = stage_pipelineId s).
    { unfold shift_down. destruct (_ && _); reflexivity. }
    rewrite Hp.
    destruct (Nat.eqb_spec (stage_pipelineId s) pid) as [E|N]; simpl;
      rewrite IH; [|reflexivity].
    destruct (Nat.eqb_spec pid pid0) as [E1|N1]; simpl; f_equal.
    + unfold shift_down. rewrite E, E1, Nat.eqb_refl. simpl.
      destruct (Z.ltb order (stage_order s)); reflexivity.
    + unfold shift_down. rewrite E.
      destruct (Nat.eqb_spec pid pid0); [contradiction|reflexivity].
Qed.

(** Inserting at a position within 0..N, after making room, keeps the
    orders dense. *)
Lemma dense_insert (l : list Z) (p : Z) :
  dense l -> (0 <= p <= Z.of_nat (List.length l))%Z ->
  dense ((if Z.ltb p (Z.of_nat (List.length l))
          then map (fun o => if Z.leb p o then (o + 1)%Z else o) l
          else l) ++ [p]).
Proof.
  intros D Hp. apply dense_iff in D. destruct D as [N R].
  assert (E : (if Z.ltb p (Z.of_nat (List.length l))
               then map (fun o => if Z.leb p o then (o + 1)%Z else o) l
               else l)
              = map (fun o => if Z.leb p o then (o + 1)%Z else o) l).
  { destruct (Z.ltb_spec p (Z.of_nat (List.length l))) as [_|Hge];
      [reflexivity|].
    rewrite <- (map_id l) at 1. apply map_ext_in. intros o Ho.
    specialize (R o Ho). destruct (Z.leb_spec p o); lia. }
  rewrite E. apply dense_iff. split.
  - apply NoDup_app.
    + apply NoDup_map_NoDup_ForallPairs; [|exact N].
      intros x y _ _.
      destruct (Z.leb_spec p x); destruct (Z.leb_spec p y); lia.
    + constructor; [simpl; tauto|constructor].
    + intros a Ha [<-|[]]. apply in_map_iff in Ha.
      destruct Ha as (o & Ho & _). destruct (Z.leb_spec p o); lia.
  - intros o Ho. rewrite length_app, length_map. simpl.
    apply in_app_or in Ho. destruct Ho as [Ho|[<-|[]]]; [|lia].
    apply in_map_iff in Ho. destruct Ho as (x & <- & Hx).
    specialize (R x Hx). destruct (Z.leb_spec p x); lia.
Qed.

(** Removing one value and closing the gap keeps the orders dense. *)
Lemma dense_remove (a b : list Z) (p : Z) :
  dense (a ++ p :: b) ->
  dense (map (fun o => if Z.ltb p o then (o - 1)%Z else o) (a ++ b)).
Proof.
  intros D. apply dense_iff in D. destruct D as [N R].
  apply NoDup_remove in N. destruct N as [N Hp].
  assert (Rp := R p (in_elt p a b)).
  rewrite length_app in R, Rp. simpl in R, Rp.
  assert (R' : forall o, In o (a ++ b) ->
             (0 <= o < Z.of_nat (List.length a + S (List.length b)))%Z
             /\ o <> p).
  { intros o Ho. split.
    - apply R. apply in_app_or in Ho. apply in_or_app. simpl. tauto.
    - intros ->. contradiction. }
  apply dense_iff. split.
  - apply NoDup_map_NoDup_ForallPairs; [|exact N].
    intros x y Hx Hy. destruct (R' x Hx), (R' y Hy).
    destruct (Z.ltb_spec p x); destruct (Z.ltb_spec p y); lia.
  - intros o Ho. rewrite length_map, length_app.
    apply in_map_iff in Ho. destruct Ho as (x & <- & Hx).
    destruct (R' x Hx). destruct (Z.ltb_spec p x); lia.
Qed.

(** With unique ids, deleting by id takes out exactly the row. *)
Lemma delete_rows_split {R : Type} (rid : R -> Id) (l : list R) (x : R) :
  NoDup (map rid l) -> In x l ->
  exists l1 l2, l = l1 ++ x :: l2 /\ delete_rows rid (rid x) l = l1 ++ l2.
Proof.
  intros N Hin. apply in_split in Hin. destruct Hin as (l1 & l2 & ->).
  exists l1, l2. split; [reflexivity|].
  rewrite map_app in N. simpl in N. apply NoDup_remove_2 in N.
  unfold delete_rows. rewrite filter_app. simpl.
  rewrite Nat.eqb_refl. simpl.
  rewrite !filter_all; [reflexivity| |].
  - intros y Hy. apply negb_true_iff, Nat.eqb_neq. intros E.
    apply N. apply in_or_app. right. rewrite <- E. apply in_map. exact Hy.
  - intros y Hy. apply negb_true_iff, Nat.eqb_neq. intros E.
    apply N. apply in_or_app. left. rewrite <- E. apply in_map. exact Hy.
Qed.

Lemma filter_comm {A : Type} (f g : A -> bool) (l : list A) :
  filter f (filter g l) = filter g (filter f l).
Proof.
  induction l as [|x t IH]; simpl; [reflexivity|].
  destruct (f x) eqn:F, (g x) eqn:G; simpl; rewrite ?F, ?G, IH; reflexivity.
Qed.

Lemma NoDup_map_filter {A B : Type} (f : A -> B) (g : A -> bool) (l : list A) :
  NoDup (map f l) -> NoDup (map f (filter g l)).
Proof.
  induction l as [|x t IH]; simpl; intros N; [constructor|].
  inversion N as [|? ? Hx Ht]; subst.
  destruct (g x); simpl; [constructor|]; auto.
  intros C. apply Hx. apply in_map_iff in C. destruct C as (y & E & Hy).
  apply in_map_iff. exists y. split; [exact E|].
  apply filter_In in Hy. tauto.
Qed.


Lemma NoDup_map_inj {A B : Type} (f : A -> B) (l : list A) (x y : A) :
  NoDup (map f l) -> In x l -> In y l -> f x = f y -> x = y.
Proof.
  induction l as [|a t IH]; simpl; intros N Hx Hy E; [tauto|].
  inversion N as [|? ? Ha Ht]; subst.
  destruct Hx as [->|Hx], Hy as [->|Hy]; auto.
  - exfalso. apply Ha. rewrite E. apply in_map. exact Hy.
  - exfalso. apply Ha. rewrite <- E. apply in_map. exact Hx.
Qed.

Lemma shift_up_id (pid : Id) (o : Z) (s : PipelineStage) :
  stage_id (shift_up pid o s) = stage_id s
  /\ stage_pipelineId (shift_up pid o s) = stage_pipelineId s.
Proof. unfold shift_up. destruct (_ && _); split; reflexivity. Qed.

Lemma shift_down_id (pid : Id) (o : Z) (s : PipelineStage) :
  stage_id (shift_down pid o s) = stage_id s
  /\ stage_pipelineId (shift_down pid o s) = stage_pipelineId s.
Proof. unfold shift_down. destruct (_ && _); split; reflexivity. Qed.

Lemma find_pipeline_bound (i t : Id) (st : Store) (p : Pipeline) :
  wf st -> DealRouter.find_pipeline i t st = Some p -> i < nextId st.
Proof.
  intros (_ & _ & Hp & _) F. unfold DealRouter.find_pipeline in F.
  apply find_some in F. destruct F as [Hin Hc].
  apply andb_true_iff in Hc. destruct Hc as [Hc _].
  apply Nat.eqb_eq in Hc. specialize (Hp p Hin). lia.
Qed.

(** [addStage] at a position in range keeps ids unique and orders dense. *)
Lemma addStage_inv (ctx : Ctx) (input : AddStageInput) (st : Store) :
  wf st -> all_dense st -> position_in_range input st ->
  wf (fst (addStage ctx input st)) /\ all_dense (fst (addStage ctx input st)).
Proof.
  intros W D Hr. unfold addStage.
  destruct (DealRouter.find_pipeline (add_pipelineId input) (tenantId ctx) st)
    as [p|] eqn:F; simpl; [|auto].
  pose proof (find_pipeline_bound _ _ _ _ W F) as Hb.
  destruct W as (Hn & Hs & Hp & Hsp).
  set (count := Z.of_nat (List.length (stages_of (add_pipelineId input) st))).
  set (order := match add_position input with Some q => q | None => count end).
  set (shifted := if Z.ltb order count
                  then map (shift_up (add_pipelineId input) order) (stages st)
                  else stages st).
  assert (Hids : map stage_id shifted = map stage_id (stages st)).
  { unfold shifted. destruct (Z.ltb order count); [|reflexivity].
    rewrite map_map. apply map_ext. intros s. apply shift_up_id. }
  assert (Hsh : forall s, In s shifted ->
             exists s0, In s0 (stages st) /\ stage_id s = stage_id s0
                        /\ stage_pipelineId s = stage_pipelineId s0).
  { intros s. unfold shifted. destruct (Z.ltb order count).
    - intros Hin. apply in_map_iff in Hin. destruct Hin as (s0 & <- & H0).
      exists s0. split; [exact H0|]. apply shift_up_id.
    - intros Hin. exists s. auto. }
  split.
  - unfold wf; simpl. repeat split.
    + rewrite map_app, Hids. simpl. apply NoDup_app; [exact Hn| |].
      * constructor; [simpl; tauto|constructor].
      * intros a Ha [<-|[]]. apply in_map_iff in Ha.
        destruct Ha as (s & E & Hin). specialize (Hs s Hin). lia.
    + intros s Hin. apply in_app_or in Hin. destruct Hin as [Hin|[<-|[]]].
      * destruct (Hsh s Hin) as (s0 & H0 & E & _). specialize (Hs s0 H0). lia.
      * simpl. lia.
    + intros q Hq. specialize (Hp q Hq). lia.
    + intros s Hin. apply in_app_or in Hin. destruct Hin as [Hin|[<-|[]]].
      * destruct (Hsh s Hin) as (s0 & H0 & _ & E). specialize (Hsp s0 H0). lia.
      * simpl. lia.
  - intros pid. unfold orders_of, stages_of; simpl.
    rewrite filter_app, map_app. simpl.
    assert (Hf : map stage_order
                   (filter (fun s => Nat.eqb (stage_pipelineId s) pid) shifted)
                 = if Nat.eqb pid (add_pipelineId input)
                   then (if Z.ltb order count
                         then map (fun o => if Z.leb order o then (o + 1)%Z else o)
                                  (orders_of pid st)
                         else orders_of pid st)
                   else orders_of pid st).
    { unfold shifted. destruct (Z.ltb order count).
      - apply orders_shift_up.
      - destruct (Nat.eqb pid (add_pipelineId input)); reflexivity. }
    rewrite Hf.
    clear Hf.
    destruct (Nat.eqb_spec pid (add_pipelineId input)) as [E|Hne].
    + rewrite E, Nat.eqb_refl. simpl.
      assert (Hc : count = Z.of_nat (List.length (orders_of (add_pipelineId input) st))).
      { unfold count, orders_of. rewrite length_map. reflexivity. }
      rewrite Hc. apply dense_insert; [apply D|].
      rewrite <- Hc. unfold order. unfold position_in_range in Hr.
      fold count in Hr. destruct (add_position input); lia.
    + destruct (Nat.eqb_spec (add_pipelineId input) pid) as [E|_];
        [congruence|]. simpl. rewrite app_nil_r. apply D.
Qed.

(** [deleteStage] keeps ids unique and orders dense. *)
Lemma deleteStage_inv (ctx : Ctx) (id : Id) (st : Store) :
  wf st -> all_dense st ->
  wf (fst (deleteStage ctx id st)) /\ all_dense (fst (deleteStage ctx id st)).
Proof.
  intros W D. unfold deleteStage.
  destruct (find_stage id (tenantId ctx) st) as [s0|] eqn:F; simpl; [|auto].
  destruct (Nat.ltb 0 (deal_count (stage_id s0) st)); simpl; [auto|].
  unfold find_stage in F. apply find_some in F. destruct F as [Hin0 Hc].
  apply andb_true_iff in Hc. destruct Hc as [Hid _].
  apply Nat.eqb_eq in Hid.
  destruct W as (Hn & Hs & Hp & Hsp).
  split.
  - unfold wf; simpl. repeat split.
    + rewrite map_map.
      rewrite (map_ext _ stage_id) by (intros s; apply shift_down_id).
      apply NoDup_map_filter. exact Hn.
    + intros s Hin. apply in_map_iff in Hin. destruct Hin as (s1 & <- & H1).
      apply filter_In in H1. destruct H1 as [H1 _].
      destruct (shift_down_id (stage_pipelineId s0) (stage_order s0) s1) as [E _].
      rewrite E. apply Hs. exact H1.
    + exact Hp.
    + intros s Hin. apply in_map_iff in Hin. destruct Hin as (s1 & <- & H1).
      apply filter_In in H1. destruct H1 as [H1 _].
      destruct (shift_down_id (stage_pipelineId s0) (stage_order s0) s1) as [_ E].
      rewrite E. apply Hsp. exact H1.
  - intros pid. unfold orders_of, stages_of; simpl.
    rewrite orders_shift_down. unfold delete_rows. rewrite filter_comm.
    fold (delete_rows stage_id id
            (filter (fun s => Nat.eqb (stage_pipelineId s) pid) (stages st))).
    destruct (Nat.eqb_spec pid (stage_pipelineId s0)) as [E|Hne].
    + rewrite E. clear E.
      assert (Hin : In s0 (filter (fun s => Nat.eqb (stage_pipelineId s)
                                     (stage_pipelineId s0)) (stages st))).
      { apply filter_In. split; [exact Hin0|apply Nat.eqb_refl]. }
      pose proof (NoDup_map_filter stage_id
                    (fun s => Nat.eqb (stage_pipelineId s) (stage_pipelineId s0))
                    (stages st) Hn) as Hn'.
      destruct (delete_rows_split stage_id _ s0 Hn' Hin) as (l1 & l2 & E1 & E2).
      rewrite Hid in E2. rewrite E2.
      specialize (D (stage_pipelineId s0)).
      unfold orders_of, stages_of in D. rewrite E1 in D.
      rewrite map_app in D. simpl in D.
      rewrite map_app. apply dense_remove. exact D.
    + unfold delete_rows. rewrite filter_all; [apply D|].
      intros y Hy. apply filter_In in Hy. destruct Hy as [Hy Hpy].
      apply Nat.eqb_eq in Hpy.
      apply negb_true_iff, Nat.eqb_neq. intros E.
      assert (y = s0) by (eapply NoDup_map_inj; eauto; congruence).
      subst y. congruence.
Qed.

Lemma step_inv (op : Op) (st : Store) :
  wf st -> all_dense st ->
  match op with
  | OpAddStage _ input => position_in_range input st
  | _ => True
  end ->
  wf (step st op) /\ all_dense (step st op).
Proof.
  intros W D Hr. destruct op as [ctx input|ctx input|ctx id]; cbn [step].
  - split; [apply create_wf; exact W|].
    intros pid. rewrite create_orders by exact W.
    destruct (Nat.eqb pid (nextId st)); [|apply D].
    unfold dense. rewrite length_map, length_seq. apply Permutation_refl.
  - apply addStage_inv; assumption.
  - apply deleteStage_inv; assumption.
Qed.

Lemma run_inv (ops : list Op) :
  forall st, wf st -> all_dense st -> positions_in_range ops st ->
  wf (run ops st) /\ all_dense (run ops st).
Proof.
  induction ops as [|op rest IH]; intros st W D Hr; simpl; [auto|].
  destruct Hr as [H1 H2].
  destruct (step_inv op st W D H1) as [W' D'].
  apply IH; assumption.
Qed.

Lemma wf_empty : wf empty_store /\ all_dense empty_store.
Proof.
  split.
  - unfold wf; simpl. repeat split; try constructor; intros ? [].
  - intros pid. apply dense_nil.
Qed.

(** Whatever the engine is asked, as long as every [addStage] names a
    position within 0..N (or none), the stage orders of every pipeline stay
    pairwise distinct and exactly 0..N-1. *)
Theorem engine_orders_dense_in_range (ops : list Op) (pid : Id) :
  positions_in_range ops empty_store ->
  dense (orders_of pid (run ops empty_store)).
Proof.
  intros Hr. destruct wf_empty as [W D].
  destruct (run_inv ops empty_store W D Hr) as [_ D']. apply D'.
Qed.


Lemma engine_orders_dense_in_range_witness :
  positions_in_range Scenario.ops_in_range empty_store
  /\ dense (orders_of 0 (run Scenario.ops_in_range empty_store)).
Proof.
  assert (H : positions_in_range Scenario.ops_in_range empty_store)
    by (vm_compute; intuition discriminate).
  split; [exact H|].
  exact (engine_orders_dense_in_range Scenario.ops_in_range 0 H).
Defined.

(** C2.  A pipeline created by [create] with one stage, then [addStage]
    with position 5: the stage is stored with order 5 and nothing is
    shifted, so the orders are 0 and 5, not 0 and 1.  A negative position
    shifts every stage and stores the negative order. *)
Theorem addStage_out_of_range_not_dense :
  orders_of 0 (run Scenario.ops_beyond_end empty_store) = [0; 5]%Z
  /\ ~ dense (orders_of 0 (run Scenario.ops_beyond_end empty_store))
  /\ orders_of 0 (run Scenario.ops_negative empty_store) = [1; -1]%Z
  /\ ~ dense (orders_of 0 (run Scenario.ops_negative empty_store)).
Proof.
  split; [reflexivity|]. split.
  - intros D. apply dense_iff in D. destruct D as [_ R].
    specialize (R 5%Z). simpl in R. lia.
  - split; [reflexivity|].
    intros D. apply dense_iff in D. destruct D as [_ R].
    specialize (R (-1)%Z). simpl in R. lia.
Qed.

End StageOrders.

(** ** Deleting a stage *)

Section DeleteStage.
Import PipelineRouter.

(** C3 (as the code has it).  For a stage of the tenant: when a deal
    references it, [deleteStage] throws BAD_REQUEST and the store is left
    as it was; when none does, it returns, no row with the id remains, every
    other stage of the same pipeline with a greater order reappears with its
    order decremented by one, every remaining stage reappears unchanged, and
    nothing else is in the table. *)
Theorem deleteStage_guard_and_renumber
  (ctx : Ctx) (id : Id) (st : Store) (s : PipelineStage) :
  find_stage id (tenantId ctx) st = Some s ->
  (0 < deal_count (stage_id s) st ->
   exists msg,
     deleteStage ctx id st = (st, Throw (mkTRPCError BAD_REQUEST msg)))
  /\ (deal_count (stage_id s) st = 0 ->
      exists st',
        deleteStage ctx id st = (st', Return true)
        /\ (forall r, In r (stages st') -> stage_id r <> id)
        /\ (forall r, In r (stages st) -> stage_id r <> id ->
            stage_pipelineId r = stage_pipelineId s ->
            (stage_order s < stage_order r)%Z ->
            In (mkStage (stage_id r) (stage_pipelineId r) (stage_name r)
                        (stage_color r) (stage_order r - 1)) (stages st'))
        /\ (forall r, In r (stages st) -> stage_id r <> id ->
            stage_pipelineId r <> stage_pipelineId s
            \/ (stage_order r <= stage_order s)%Z ->
            In r (stages st'))
        /\ List.length (stages st')
           = List.length (delete_rows stage_id id (stages st))
        /\ deals st' = deals st /\ pipelines st' = pipelines st).
Proof.
  intros F. unfold deleteStage. rewrite F. split.
  - intros Hc. apply Nat.ltb_lt in Hc. rewrite Hc. eexists. reflexivity.
  - intros Hc. rewrite Hc. simpl. eexists. split; [reflexivity|].
    simpl. repeat split.
    + intros r Hr. apply in_map_iff in Hr. destruct Hr as (x & <- & Hx).
      apply filter_In in Hx. destruct Hx as [_ Hx].
      apply negb_true_iff, Nat.eqb_neq in Hx.
      destruct (shift_down_id (stage_pipelineId s) (stage_order s) x) as [E _].
      rewrite E. exact Hx.
    + intros r Hr Hid Hp Ho. apply in_map_iff. exists r. split.
      * unfold shift_down. rewrite Hp, Nat.eqb_refl.
        apply Z.ltb_lt in Ho. rewrite Ho. reflexivity.
      * apply filter_In. split; [exact Hr|].
        apply negb_true_iff, Nat.eqb_neq. exact Hid.
    + intros r Hr Hid Hc'. apply in_map_iff. exists r. split.
      * unfold shift_down.
        destruct (Nat.eqb_spec (stage_pipelineId r) (stage_pipelineId s));
          destruct (Z.ltb_spec (stage_order s) (stage_order r));
          simpl; try reflexivity.
        destruct Hc'; [contradiction|lia].
      * apply filter_In. split; [exact Hr|].
        apply negb_true_iff, Nat.eqb_neq. exact Hid.
    + apply length_map.
Qed.

Lemma deleteStage_guard_and_renumber_witness :
  find_stage 2 (tenantId Scenario.ctx1) Scenario.store_with_deal
    = Some (mkStage 2 0 "Qualified" Scenario.grey 1)
  /\ exists st',
       deleteStage Scenario.ctx1 2 Scenario.store_with_deal = (st', Return true)
       /\ map stage_order (stages st') = [0; 1; 0]%Z.
Proof.
  split; [reflexivity|].
  destruct (deleteStage_guard_and_renumber Scenario.ctx1 2
              Scenario.store_with_deal (mkStage 2 0 "Qualified" Scenario.grey 1)
              eq_refl) as [_ H].
  destruct (H eq_refl) as (st' & E & _).
  exists st'. split; [exact E|].
  vm_compute in E. injection E as <-. reflexivity.
Defined.

(** C3 (as stated).  Deleting the stage New, which the deal references:
    the error thrown carries the code BAD_REQUEST, not PRECONDITION_FAILED. *)
Theorem deleteStage_referenced_is_bad_request :
  deleteStage Scenario.ctx1 1 Scenario.store_with_deal
  = (Scenario.store_with_deal,
     Throw (mkTRPCError BAD_REQUEST
       "Cannot delete stage with active deals. Move or delete deals first."))
  /\ ~ (exists msg,
          snd (deleteStage Scenario.ctx1 1 Scenario.store_with_deal)
          = Throw (mkTRPCError PRECONDITION_FAILED msg)).
Proof.
  split; [reflexivity|].
  intros [msg H]. vm_compute in H. discriminate H.
Qed.

End DeleteStage.

(** ** Deal lifecycle *)

Section DealLifecycle.
Import DealRouter.

Lemma find_update_rows {R : Type} (p : R -> bool) (rid : R -> Id) (i : Id)
  (f : R -> R) (l : list R) (d : R) :
  (forall x, p (f x) = p x) ->
  find p l = Some d -> rid d = i ->
  find p (update_rows rid i f l) = Some (f d).
Proof.
  intros Hp. induction l as [|x t IH]; simpl; intros F E; [discriminate|].
  destruct (p x) eqn:Px.
  - injection F as ->. rewrite E, Nat.eqb_refl, Hp, Px. reflexivity.
  - destruct (Nat.eqb (rid x) i); rewrite ?Hp, Px; apply IH; assumption.
Qed.

Lemma find_deal_id (i t : Id) (st : Store) (d : Deal) :
  find_deal i t st = Some d ->
  In d (deals st) /\ deal_id d = i /\ deal_tenantId d = t.
Proof.
  unfold find_deal. intros F. apply find_some in F. destruct F as [Hin Hc].
  apply andb_true_iff in Hc. destruct Hc as [H1 H2].
  apply Nat.eqb_eq in H1, H2. auto.
Qed.

Lemma find_stage_in_spec (i p : Id) (st : Store) (s : PipelineStage) :
  find_stage_in i p st = Some s ->
  In s (stages st) /\ stage_id s = i /\ stage_pipelineId s = p.
Proof.
  unfold find_stage_in. intros F. apply find_some in F. destruct F as [Hin Hc].
  apply andb_true_iff in Hc. destruct Hc as [H1 H2].
  apply Nat.eqb_eq in H1, H2. auto.
Qed.

Lemma in_update_rows {R : Type} (rid : R -> Id) (i : Id) (f : R -> R)
  (l : list R) (y : R) :
  In y (update_rows rid i f l) ->
  exists x, In x l
            /\ ((rid x = i /\ y = f x) \/ (rid x <> i /\ y = x)).
Proof.
  unfold update_rows. intros H. apply in_map_iff in H.
  destruct H as (x & E & Hx). exists x. split; [exact Hx|].
  destruct (Nat.eqb_spec (rid x) i); [left|right]; auto.
Qed.

Lemma update_rows_ids {R : Type} (rid : R -> Id) (i : Id) (f : R -> R)
  (l : list R) :
  (forall x, rid (f x) = rid x) ->
  map rid (update_rows rid i f l) = map rid l.
Proof.
  intros H. unfold update_rows. rewrite map_map. apply map_ext.
  intros x. destruct (Nat.eqb (rid x) i); auto.
Qed.

(** [create] keeps deal ids unique and every deal in a stage of its own
    pipeline; the deal it returns is stored and is such a deal. *)
Lemma create_consistent (ctx : Ctx) (now : Date) (input : CreateInput)
  (st : Store) :
  deals_wf st -> all_deals_consistent st ->
  deals_wf (fst (create ctx now input st))
  /\ all_deals_consistent (fst (create ctx now input st))
  /\ (forall d, snd (create ctx now input st) = Return d ->
      In d (deals (fst (create ctx now input st)))
      /\ stage_in_pipeline (fst (create ctx now input st)) d).
Proof.
  intros [Hn Hb] C. unfold create.
  destruct (find_contact _ _ st); [|simpl; repeat split; auto; discriminate].
  destruct (find_pipeline _ _ st); [|simpl; repeat split; auto; discriminate].
  destruct (find_stage_in _ _ st) as [s|] eqn:F;
    [|simpl; repeat split; auto; discriminate].
  apply find_stage_in_spec in F. destruct F as (Hs & Hi & Hp).
  unfold deals_wf, all_deals_consistent, stage_in_pipeline, log_activity.
  simpl. repeat split.
  - rewrite map_app. simpl. apply NoDup_app; [exact Hn| |].
    + constructor; [simpl; tauto|constructor].
    + intros a Ha [<-|[]]. apply in_map_iff in Ha.
      destruct Ha as (d & E & Hd). specialize (Hb d Hd). lia.
  - intros d Hd. apply in_app_or in Hd. destruct Hd as [Hd|[<-|[]]].
    + specialize (Hb d Hd). lia.
    + simpl. lia.
  - intros d Hd. apply in_app_or in Hd. destruct Hd as [Hd|[<-|[]]].
    + apply C. exact Hd.
    + exists s. simpl. auto.
  - injection H as <-. apply in_or_app. right. left. reflexivity.
  - injection H as <-. exists s. simpl. auto.
Qed.

(** [moveStage] does the same; the deal it returns is in the new stage. *)
Lemma moveStage_consistent (ctx : Ctx) (id stageId : Id) (st : Store) :
  deals_wf st -> all_deals_consistent st ->
  deals_wf (fst (moveStage ctx id stageId st))
  /\ all_deals_consistent (fst (moveStage ctx id stageId st))
  /\ (forall d, snd (moveStage ctx id stageId st) = Return d ->
      deal_stageId d = stageId
      /\ In d (deals (fst (moveStage ctx id stageId st)))
      /\ stage_in_pipeline (fst (moveStage ctx id stageId st)) d).
Proof.
  intros [Hn Hb] C. unfold moveStage.
  destruct (find_deal id (tenantId ctx) st) as [deal|] eqn:F;
    [|simpl; repeat split; auto; discriminate].
  destruct (find_stage_in stageId (deal_pipelineId deal) st) as [s|] eqn:G;
    [|simpl; repeat split; auto; discriminate].
  apply find_deal_id in F. destruct F as (Hd & Hi & _).
  apply find_stage_in_spec in G. destruct G as (Hs & Hsi & Hsp).
  unfold deals_wf, all_deals_consistent, stage_in_pipeline, log_activity,
    set_deals.
  simpl. repeat split.
  - rewrite update_rows_ids by reflexivity. exact Hn.
  - intros d Hin. apply in_update_rows in Hin.
    destruct Hin as (x & Hx & [[_ ->]|[_ ->]]); simpl; apply Hb; exact Hx.
  - intros d Hin. apply in_update_rows in Hin.
    destruct Hin as (x & Hx & [[E ->]|[_ ->]]).
    + assert (x = deal) by (eapply NoDup_map_inj; eauto; congruence).
      subst x. exists s. simpl. auto.
    + apply C. exact Hx.
  - injection H as <-. reflexivity.
  - injection H as <-. unfold update_rows. apply in_map_iff.
    exists deal. rewrite Hi, Nat.eqb_refl. auto.
  - injection H as <-. exists s. simpl. auto.
Qed.

(** C4.  In a store where deal ids are unique and every deal sits in a
    stage of its own pipeline, this still holds after [create] and after
    [moveStage], the deal returned is one of them, and a [moveStage] of a
    deal of the tenant to a stage id found only in other pipelines throws
    BAD_REQUEST and leaves the store, hence the stage of the deal, as it
    was. *)
Theorem deal_stage_in_pipeline (ctx : Ctx) (st : Store) :
  deals_wf st -> all_deals_consistent st ->
  (forall now input,
     deals_wf (fst (create ctx now input st))
     /\ all_deals_consistent (fst (create ctx now input st))
     /\ (forall d, snd (create ctx now input st) = Return d ->
         In d (deals (fst (create ctx now input st)))
         /\ stage_in_pipeline (fst (create ctx now input st)) d))
  /\ (forall id stageId,
        deals_wf (fst (moveStage ctx id stageId st))
        /\ all_deals_consistent (fst (moveStage ctx id stageId st))
        /\ (forall d, snd (moveStage ctx id stageId st) = Return d ->
            deal_stageId d = stageId
            /\ In d (deals (fst (moveStage ctx id stageId st)))
            /\ stage_in_pipeline (fst (moveStage ctx id stageId st)) d))
  /\ (forall id stageId d,
        find_deal id (tenantId ctx) st = Some d ->
        (forall s, In s (stages st) -> stage_id s = stageId ->
                   stage_pipelineId s <> deal_pipelineId d) ->
        moveStage ctx id stageId st
        = (st, Throw (mkTRPCError BAD_REQUEST "Invalid stage for this pipeline"))
        /\ find_deal id (tenantId ctx)
             (fst (moveStage ctx id stageId st)) = Some d).
Proof.
  intros W C. split; [|split].
  - intros now input. apply create_consistent; assumption.
  - intros id stageId. apply moveStage_consistent; assumption.
  - intros id stageId d F Hs.
    assert (E : moveStage ctx id stageId st
                = (st, Throw (mkTRPCError BAD_REQUEST
                                "Invalid stage for this pipeline"))).
    { unfold moveStage. rewrite F.
      destruct (find_stage_in stageId (deal_pipelineId d) st) as [s|] eqn:G;
        [|reflexivity].
      apply find_stage_in_spec in G. destruct G as (Hin & Hi & Hp).
      exfalso. exact (Hs s Hin Hi Hp). }
    rewrite E. split; [reflexivity|exact F].
Qed.


Lemma scenario_deals_wf :
  deals_wf Scenario.store_with_deal
  /\ all_deals_consistent Scenario.store_with_deal.
Proof.
  split.
  - split.
    + simpl. constructor; [simpl; tauto|constructor].
    + intros d [<-|[]]. simpl. lia.
  - intros d [<-|[]]. exists (mkStage 1 0 "New" Scenario.grey 0).
    simpl. auto.
Defined.

Lemma deal_stage_in_pipeline_witness :
  deals_wf Scenario.store_with_deal
  /\ all_deals_consistent Scenario.store_with_deal
  /\ moveStage Scenario.ctx1 6 5 Scenario.store_with_deal
     = (Scenario.store_with_deal,
        Throw (mkTRPCError BAD_REQUEST "Invalid stage for this pipeline")).
Proof.
  destruct scenario_deals_wf as [W C].
  split; [exact W|]. split; [exact C|].
  destruct (deal_stage_in_pipeline Scenario.ctx1 Scenario.store_with_deal W C)
    as (_ & _ & H).
  apply (H 6 5 Scenario.the_deal eq_refl).
  intros s Hin Hid. simpl in Hin.
  destruct Hin as [<-|[<-|[<-|[<-|[]]]]]; simpl in *; lia.
Defined.

(** What [update] does to a deal of the tenant: it returns the patched
    row, and that row is the one stored under the id. *)
Lemma update_found (ctx : Ctx) (now : Date) (input : UpdateInput)
  (st : Store) (d : Deal) :
  find_deal (update_id input) (tenantId ctx) st = Some d ->
  exists st',
    update ctx now input st = (st', Return (apply_update now input d))
    /\ find_deal (update_id input) (tenantId ctx) st'
       = Some (apply_update now input d).
Proof.
  intros F. unfold update. rewrite F. eexists. split; [reflexivity|].
  unfold find_deal in *. unfold log_activity, set_deals. simpl.
  apply find_update_rows; [reflexivity|exact F|].
  apply find_some in F. destruct F as [_ Hc].
  apply andb_true_iff in Hc. destruct Hc as [Hc _].
  apply Nat.eqb_eq. exact Hc.
Qed.




(** C6 (as the code has it).  In every store: an [update] of a deal of the
    tenant whose input names WON or LOST stamps [actualCloseDate] with the
    time of the call, whatever it was, and any other [update] leaves it as
    it was; every deal that [create] returns is OPEN, has no close date and
    is the row stored; and [create] does return a deal when the contact,
    the pipeline and the stage of the pipeline are found. *)
Theorem update_close_date (ctx : Ctx) (now : Date) (st : Store) :
  (forall input d,
     find_deal (update_id input) (tenantId ctx) st = Some d ->
     exists st' d',
       update ctx now input st = (st', Return d')
       /\ find_deal (update_id input) (tenantId ctx) st' = Some d'
       /\ deal_actualCloseDate d'
          = match update_status input with
            | Some WON | Some LOST => Some now
            | Some OPEN | None => deal_actualCloseDate d
            end)
  /\ (forall cinput c,
        snd (create ctx now cinput st) = Return c ->
        deal_status c = OPEN
        /\ deal_actualCloseDate c = None
        /\ In c (deals (fst (create ctx now cinput st))))
  /\ (forall cinput k p s,
        find_contact (create_contactId cinput) (tenantId ctx) st = Some k ->
        find_pipeline (create_pipelineId cinput) (tenantId ctx) st = Some p ->
        find_stage_in (create_stageId cinput) (create_pipelineId cinput) st
        = Some s ->
        exists c, snd (create ctx now cinput st) = Return c).
Proof.
  split; [|split].
  - intros input d F.
    destruct (update_found ctx now input st d F) as (st' & E & G).
    exists st', (apply_update now input d). repeat split; assumption.
  - intros cinput c. unfold create.
    destruct (find_contact _ _ st); [|discriminate].
    destruct (find_pipeline _ _ st); [|discriminate].
    destruct (find_stage_in _ _ st); [|discriminate].
    unfold log_activity. simpl. intros H. injection H as <-.
    split; [reflexivity|]. split; [reflexivity|].
    apply in_or_app. right. left. reflexivity.
  - intros cinput k p s Fk Fp Fs. unfold create. rewrite Fk, Fp, Fs.
    eexists. reflexivity.
Qed.

Lemma update_close_date_witness :
  find_deal 6 1 Scenario.store_with_deal = Some Scenario.the_deal
  /\ (exists st' d',
        update Scenario.ctx1 2000%Z (Scenario.set_status WON)
               Scenario.store_with_deal = (st', Return d')
        /\ deal_actualCloseDate d' = Some 2000%Z)
  /\ snd (create Scenario.ctx1 1000%Z Scenario.deal_new Scenario.store_sales3)
     = Return Scenario.the_deal
  /\ deal_status Scenario.the_deal = OPEN
  /\ deal_actualCloseDate Scenario.the_deal = None.
Proof.
  split; [reflexivity|]. split.
  - destruct (update_close_date Scenario.ctx1 2000%Z Scenario.store_with_deal)
      as [U _].
    destruct (U (Scenario.set_status WON) Scenario.the_deal eq_refl)
      as (st' & d' & E & _ & S).
    exists st', d'. split; [exact E|exact S].
  - split; [reflexivity|].
    destruct (update_close_date Scenario.ctx1 1000%Z Scenario.store_sales3)
      as (_ & C & _).
    destruct (C Scenario.deal_new Scenario.the_deal eq_refl) as (O & N & _).
    split; [exact O|exact N].
Defined.

(** C6 (as stated).  The deal won at time 2000 and set back to OPEN at time
    3000 is OPEN and still carries the close date 2000. *)
Theorem reopened_deal_keeps_close_date :
  exists d,
    find_deal 6 1 Scenario.store_reopened = Some d
    /\ deal_status d = OPEN
    /\ deal_actualCloseDate d = Some 2000%Z
    /\ deal_actualCloseDate d <> None.
Proof.
  eexists. split; [reflexivity|]. simpl. repeat split. discriminate.
Qed.

End DealLifecycle.

(** ** Dispatch of outbound messages *)

Section Dispatch.

Lemma find_existsb {R : Type} (p : R -> bool) (l : list R) (x : R) :
  find p l = Some x -> existsb p l = true.
Proof.
  intros F. apply find_some in F. apply existsb_exists. exists x. exact F.
Qed.

Lemma existsb_update_rows {R : Type} (rid : R -> Id) (i j : Id) (f : R -> R)
  (l : list R) :
  (forall x, rid (f x) = rid x) ->
  existsb (fun r => Nat.eqb (rid r) i) (update_rows rid j f l)
  = existsb (fun r => Nat.eqb (rid r) i) l.
Proof.
  intros H. induction l as [|x t IH]; simpl; [reflexivity|].
  rewrite IH. destruct (Nat.eqb (rid x) j); rewrite ?H; reflexivity.
Qed.

Lemma update_rows_compose {R : Type} (rid : R -> Id) (i : Id) (f g : R -> R)
  (l : list R) :
  (forall x, rid (f x) = rid x) ->
  update_rows rid i g (update_rows rid i f l)
  = update_rows rid i (fun x => g (f x)) l.
Proof.
  intros H. unfold update_rows. rewrite map_map. apply map_ext. intros x.
  destruct (Nat.eqb (rid x) i) eqn:E; [rewrite H|]; rewrite E; reflexivity.
Qed.

Lemma find_update_rows_other {R : Type} (rid : R -> Id) (i j : Id)
  (f : R -> R) (l : list R) :
  (forall x, rid (f x) = rid x) -> i <> j ->
  find (fun r => Nat.eqb (rid r) j) (update_rows rid i f l)
  = find (fun r => Nat.eqb (rid r) j) l.
Proof.
  intros H Hne. induction l as [|x t IH]; simpl; [reflexivity|].
  destruct (Nat.eqb_spec (rid x) i) as [E|N].
  - rewrite H. destruct (Nat.eqb_spec (rid x) j) as [E'|_]; [congruence|].
    exact IH.
  - destruct (Nat.eqb (rid x) j); [reflexivity|exact IH].
Qed.

Lemma find_by_id_unique {R : Type} (rid : R -> Id) (l : list R) (x : R) :
  NoDup (map rid l) -> In x l ->
  find (fun r => Nat.eqb (rid r) (rid x)) l = Some x.
Proof.
  induction l as [|a t IH]; simpl; intros N Hin; [tauto|].
  inversion N as [|? ? Ha Ht]; subst.
  destruct Hin as [->|Hin]; [rewrite Nat.eqb_refl; reflexivity|].
  destruct (Nat.eqb_spec (rid a) (rid x)) as [E|_]; [|apply IH; assumption].
  exfalso. apply Ha. rewrite E. apply in_map. exact Hin.
Qed.

(** *** Email *)

Import EmailSender.

Lemma with_email_id :
  (forall s x, email_id (with_email_status s x) = email_id x)
  /\ (forall n x, email_id (with_email_sent n x) = email_id x).
Proof. split; reflexivity. Qed.

(** A row that is not QUEUED: [send] returns at once, the mailbox (rows,
    provider calls, client state) is the one it was given. *)
Lemma email_send_not_queued (env : Providers) (now : Date) (id : Id)
  (mb : Mailbox) (e : Email) :
  find_email id mb = Some e -> email_status e <> QUEUED ->
  send env now id mb = (mb, Return tt).
Proof.
  intros F Hs. unfold send, send_try. rewrite F.
  destruct (email_status e); simpl; try reflexivity. congruence.
Qed.

(** The effect of [send] on a QUEUED row: the rows carrying the id end up
    SENT with the send time when the provider accepts the message, FAILED
    when anything is thrown; [send] returns in the first case and throws in
    the second; the accounts are untouched. *)
Lemma email_send_queued (env : Providers) (now : Date) (id : Id)
  (mb : Mailbox) (e : Email) :
  find_email id mb = Some e -> email_status e = QUEUED ->
  exists mb' r,
    send env now id mb = (mb', r)
    /\ emails mb'
       = update_rows email_id id
           (if delivers env mb e then with_email_sent now
            else with_email_status FAILED) (emails mb)
    /\ emailAccounts mb' = emailAccounts mb
    /\ (if delivers env mb e then r = Return tt
        else exists err, r = Throw err).
Proof.
  intros F Hs.
  assert (X : existsb (fun r => Nat.eqb (email_id r) id) (emails mb) = true)
    by (apply (find_existsb _ _ _ F)).
  assert (Hid : email_id e = id).
  { apply find_some in F. apply Nat.eqb_eq. apply F. }
  unfold send, send_try, delivers, sendViaSMTP. rewrite F, Hs, Hid.
  unfold update_email, prisma_update, account_of. simpl. rewrite X. simpl.
  destruct (find _ (emailAccounts mb)) as [a|]; simpl;
    [destruct (account_provider a); simpl;
     [destruct (truthy (account_apiKey a)); simpl;
      [destruct (sgMail_send env e) as [err|]; simpl|]
     | | | destruct (smtp_sendMail env e a) as [err|]; simpl | ] | ];
    rewrite ?existsb_update_rows by reflexivity; rewrite ?X; simpl;
    rewrite ?existsb_update_rows by reflexivity; rewrite ?X; simpl;
    rewrite ?update_rows_compose by reflexivity;
    (eexists; eexists; split; [reflexivity|]);
    simpl; repeat split; try reflexivity; eauto.
Qed.


Lemma email_delivers_ext (env : Providers) (mb mb' : Mailbox) (e : Email) :
  emailAccounts mb' = emailAccounts mb ->
  delivers env mb' e = delivers env mb e.
Proof. intros E. unfold delivers, account_of. rewrite E. reflexivity. Qed.

(** [send] leaves the rows of other ids and the accounts alone. *)
Lemma email_send_frame (env : Providers) (now : Date) (i j : Id)
  (mb : Mailbox) :
  i <> j ->
  find_email j (fst (send env now i mb)) = find_email j mb
  /\ emailAccounts (fst (send env now i mb)) = emailAccounts mb.
Proof.
  intros Hne. destruct (find_email i mb) as [e|] eqn:F.
  - destruct (EmailStatus_eqb (email_status e) QUEUED) eqn:Q.
    + assert (Hs : email_status e = QUEUED)
        by (destruct (email_status e); simpl in Q; congruence).
      destruct (email_send_queued env now i mb e F Hs)
        as (mb' & r & E & He & Ha & _).
      rewrite E. simpl. split; [|exact Ha].
      unfold find_email. rewrite He. apply find_update_rows_other; [|exact Hne].
      intros x. destruct (delivers env mb e); reflexivity.
    + rewrite (email_send_not_queued env now i mb e F).
      * simpl. auto.
      * intros Hs. rewrite Hs in Q. discriminate.
  - unfold send, send_try. rewrite F.
    unfold update_email, prisma_update.
    assert (X : existsb (fun r => Nat.eqb (email_id r) i) (emails mb) = false).
    { apply not_true_is_false. intros C. apply existsb_exists in C.
      destruct C as (x & Hx & Hc). unfold find_email in F.
      eapply find_none in F; [|exact Hx]. simpl in F. congruence. }
    rewrite X. simpl. auto.
Qed.

(** The loop of [processQueue] over rows that are stored, QUEUED and of
    distinct ids: it returns, leaves the other rows alone, and every item
    ends SENT or FAILED according to its own provider call. *)
Lemma email_process_items (env : Providers) (now : Date) (items : list Email) :
  forall mb,
    NoDup (map email_id items) ->
    (forall e, In e items ->
       find_email (email_id e) mb = Some e /\ email_status e = QUEUED) ->
    snd (process_items env now items mb) = Return tt
    /\ emailAccounts (fst (process_items env now items mb)) = emailAccounts mb
    /\ (forall j, ~ In j (map email_id items) ->
        find_email j (fst (process_items env now items mb)) = find_email j mb)
    /\ (forall e, In e items ->
        find_email (email_id e) (fst (process_items env now items mb))
        = Some (if delivers env mb e then with_email_sent now e
                else with_email_status FAILED e)).
Proof.
  induction items as [|e rest IH]; intros mb N H.
  - simpl. repeat split; auto. intros e [].
  - inversion N as [|? ? Hnotin Nrest]; subst.
    destruct (H e (or_introl eq_refl)) as [F Hs].
    destruct (email_send_queued env now (email_id e) mb e F Hs)
      as (mb1 & r & E & He & Ha & _).
    assert (P : process_items env now (e :: rest) mb
                = process_items env now rest mb1).
    { simpl. rewrite E. destruct r; reflexivity. }
    rewrite P.
    assert (Hrest : forall e', In e' rest ->
              find_email (email_id e') mb1 = Some e'
              /\ email_status e' = QUEUED).
    { intros e' Hin. destruct (H e' (or_intror Hin)) as [F' Hs'].
      split; [|exact Hs'].
      unfold find_email. rewrite He. unfold find_email in F'.
      rewrite find_update_rows_other; [exact F'| |].
      - intros x. destruct (delivers env mb e); reflexivity.
      - intros C. apply Hnotin. rewrite C. apply in_map. exact Hin. }
    destruct (IH mb1 Nrest Hrest) as (R & A & Fr & S).
    split; [exact R|]. split; [congruence|]. split.
    + intros j Hj. rewrite Fr by (intros C; apply Hj; right; exact C).
      unfold find_email. rewrite He. apply find_update_rows_other.
      * intros x. destruct (delivers env mb e); reflexivity.
      * intros C. apply Hj. left. exact C.
    + intros e' [<-|Hin].
      * rewrite Fr by exact Hnotin.
        unfold find_email. rewrite He. unfold find_email in F.
        rewrite (find_update_rows _ email_id (email_id e) _ _ e);
          [destruct (delivers env mb e); reflexivity| |exact F|reflexivity].
        intros x. destruct (delivers env mb e); reflexivity.
      * rewrite (S e' Hin), (email_delivers_ext env mb mb1 e' Ha).
        reflexivity.
Qed.

Lemma insert_asc_perm {R : Type} (key : R -> Date) (r : R) (l : list R) :
  Permutation (insert_asc key r l) (r :: l).
Proof.
  induction l as [|x t IH]; simpl; [apply Permutation_refl|].
  destruct (Z.leb (key r) (key x)); [apply Permutation_refl|].
  eapply Permutation_trans; [apply perm_skip; exact IH|apply perm_swap].
Qed.

Lemma sort_asc_perm {R : Type} (key : R -> Date) (l : list R) :
  Permutation (sort_asc key l) l.
Proof.
  induction l as [|x t IH]; simpl; [apply Permutation_refl|].
  eapply Permutation_trans; [apply insert_asc_perm|].
  apply perm_skip. exact IH.
Qed.

Lemma in_firstn {A : Type} (n : nat) (l : list A) (x : A) :
  In x (firstn n l) -> In x l.
Proof.
  intros H. rewrite <- (firstn_skipn n l). apply in_or_app. left. exact H.
Qed.

Lemma NoDup_firstn {A : Type} (n : nat) (l : list A) :
  NoDup l -> NoDup (firstn n l).
Proof.
  intros H. rewrite <- (firstn_skipn n l) in H.
  eapply NoDup_app_remove_r. exact H.
Qed.

(** A batch of the ten oldest rows matching a filter: its rows are stored,
    match the filter and, with unique ids, are found under their id. *)
Lemma batch_spec {R : Type} (rid : R -> Id) (key : R -> Date)
  (p : R -> bool) (rows : list R) :
  NoDup (map rid rows) ->
  NoDup (map rid (firstn 10 (sort_asc key (filter p rows))))
  /\ (forall x, In x (firstn 10 (sort_asc key (filter p rows))) ->
      find (fun r => Nat.eqb (rid r) (rid x)) rows = Some x /\ p x = true).
Proof.
  intros N. split.
  - rewrite <- firstn_map. apply NoDup_firstn.
    eapply Permutation_NoDup.
    + apply Permutation_sym, Permutation_map, sort_asc_perm.
    + apply NoDup_map_filter. exact N.
  - intros x Hx. apply in_firstn in Hx.
    eapply Permutation_in in Hx; [|apply sort_asc_perm].
    apply filter_In in Hx. destruct Hx as [Hin Hp].
    split; [|exact Hp]. apply find_by_id_unique; assumption.
Qed.


(** *** SMS *)

Lemma sms_send_not_queued (env : Providers) (now : Date) (id : Id)
  (mb : Mailbox) (m : SmsMessage) :
  SmsSender.find_sms id mb = Some m -> sms_status m <> SMS_QUEUED ->
  SmsSender.send env now id mb = (mb, Return tt).
Proof.
  intros F Hs. unfold SmsSender.send, SmsSender.send_try. rewrite F.
  destruct (sms_status m); simpl; try reflexivity. congruence.
Qed.

Lemma dispatched_id (env : Providers) (now : Date) (mb : Mailbox)
  (m x : SmsMessage) :
  sms_id (SmsSender.dispatched env now mb m x) = sms_id x.
Proof.
  unfold SmsSender.dispatched.
  destruct (SmsSender.account_of m mb) as [a|]; [|reflexivity].
  destruct (sms_account_provider a); try reflexivity.
  destruct (twilio_create env m a); reflexivity.
Qed.

Lemma dispatched_status (env : Providers) (now : Date) (mb : Mailbox)
  (m x : SmsMessage) :
  sms_status (SmsSender.dispatched env now mb m x)
  = if SmsSender.delivers env mb m then SMS_SENT else SMS_FAILED.
Proof.
  unfold SmsSender.dispatched, SmsSender.delivers.
  destruct (SmsSender.account_of m mb) as [a|]; [|reflexivity].
  destruct (sms_account_provider a); try reflexivity.
  destruct (twilio_create env m a); reflexivity.
Qed.

Lemma sms_send_queued (env : Providers) (now : Date) (id : Id)
  (mb : Mailbox) (m : SmsMessage) :
  SmsSender.find_sms id mb = Some m -> sms_status m = SMS_QUEUED ->
  exists mb' r,
    SmsSender.send env now id mb = (mb', r)
    /\ smsMessages mb'
       = update_rows sms_id id (SmsSender.dispatched env now mb m)
           (smsMessages mb)
    /\ smsAccounts mb' = smsAccounts mb
    /\ (if SmsSender.delivers env mb m then r = Return tt
        else exists err, r = Throw err).
Proof.
  intros F Hs.
  assert (X : existsb (fun r => Nat.eqb (sms_id r) id) (smsMessages mb) = true)
    by (apply (find_existsb _ _ _ F)).
  assert (Hid : sms_id m = id).
  { apply find_some in F. apply Nat.eqb_eq. apply F. }
  unfold SmsSender.send, SmsSender.send_try, SmsSender.delivers,
    SmsSender.dispatched, SmsSender.sendViaTwilio.
  rewrite F, Hs, Hid.
  unfold update_sms, prisma_update, SmsSender.account_of. simpl.
  rewrite X. simpl.
  destruct (find _ (smsAccounts mb)) as [a|]; simpl;
    [destruct (sms_account_provider a); simpl;
     [destruct (twilio_create env m a) as [sid|err]; simpl| | ] | ];
    rewrite ?existsb_update_rows by reflexivity; rewrite ?X; simpl;
    rewrite ?existsb_update_rows by reflexivity; rewrite ?X; simpl;
    rewrite ?update_rows_compose by reflexivity;
    (eexists; eexists; split; [reflexivity|]);
    simpl; repeat split; try reflexivity; eauto.
Qed.

Lemma sms_delivers_ext (env : Providers) (mb mb' : Mailbox) (m : SmsMessage) :
  smsAccounts mb' = smsAccounts mb ->
  SmsSender.delivers env mb' m = SmsSender.delivers env mb m.
Proof.
  intros E. unfold SmsSender.delivers, SmsSender.account_of. rewrite E.
  reflexivity.
Qed.

Lemma sms_process_items (env : Providers) (now : Date)
  (items : list SmsMessage) :
  forall mb,
    NoDup (map sms_id items) ->
    (forall m, In m items ->
       SmsSender.find_sms (sms_id m) mb = Some m /\ sms_status m = SMS_QUEUED) ->
    snd (SmsSender.process_items env now items mb) = Return tt
    /\ smsAccounts (fst (SmsSender.process_items env now items mb))
       = smsAccounts mb
    /\ (forall j, ~ In j (map sms_id items) ->
        SmsSender.find_sms j (fst (SmsSender.process_items env now items mb))
        = SmsSender.find_sms j mb)
    /\ (forall m, In m items ->
        option_map sms_status
          (SmsSender.find_sms (sms_id m)
             (fst (SmsSender.process_items env now items mb)))
        = Some (if SmsSender.delivers env mb m then SMS_SENT else SMS_FAILED)).
Proof.
  induction items as [|m rest IH]; intros mb N H.
  - simpl. repeat split; auto. intros m [].
  - inversion N as [|? ? Hnotin Nrest]; subst.
    destruct (H m (or_introl eq_refl)) as [F Hs].
    destruct (sms_send_queued env now (sms_id m) mb m F Hs)
      as (mb1 & r & E & He & Ha & _).
    assert (P : SmsSender.process_items env now (m :: rest) mb
                = SmsSender.process_items env now rest mb1).
    { simpl. rewrite E. destruct r; reflexivity. }
    rewrite P.
    assert (Hrest : forall m', In m' rest ->
              SmsSender.find_sms (sms_id m') mb1 = Some m'
              /\ sms_status m' = SMS_QUEUED).
    { intros m' Hin. destruct (H m' (or_intror Hin)) as [F' Hs'].
      split; [|exact Hs'].
      unfold SmsSender.find_sms. rewrite He. unfold SmsSender.find_sms in F'.
      rewrite find_update_rows_other; [exact F'| |].
      - intros x. apply dispatched_id.
      - intros C. apply Hnotin. rewrite C. apply in_map. exact Hin. }
    destruct (IH mb1 Nrest Hrest) as (R & A & Fr & S).
    split; [exact R|]. split; [congruence|]. split.
    + intros j Hj. rewrite Fr by (intros C; apply Hj; right; exact C).
      unfold SmsSender.find_sms. rewrite He. apply find_update_rows_other.
      * intros x. apply dispatched_id.
      * intros C. apply Hj. left. exact C.
    + intros m' [<-|Hin].
      * rewrite Fr by exact Hnotin.
        unfold SmsSender.find_sms. rewrite He. unfold SmsSender.find_sms in F.
        rewrite (find_update_rows _ sms_id (sms_id m) _ _ m);
          [simpl; rewrite dispatched_status; reflexivity| |exact F|reflexivity].
        intros x. rewrite dispatched_id. reflexivity.
      * rewrite (S m' Hin), (sms_delivers_ext env mb mb1 m' Ha).
        reflexivity.
Qed.


(** C7.  For an email and for an SMS alike: when the row read by [send] is
    not QUEUED, [send] returns and the mailbox it leaves is the mailbox it
    was given: same rows, same provider calls. *)
Theorem dispatch_not_queued_is_noop
  (env : Providers) (now : Date) (id : Id) (mb : Mailbox) :
  (forall e, find_email id mb = Some e -> email_status e <> QUEUED ->
     send env now id mb = (mb, Return tt))
  /\ (forall m, SmsSender.find_sms id mb = Some m ->
        sms_status m <> SMS_QUEUED ->
        SmsSender.send env now id mb = (mb, Return tt)).
Proof.
  split.
  - intros e. apply email_send_not_queued.
  - intros m. apply sms_send_not_queued.
Qed.

Lemma dispatch_not_queued_is_noop_witness :
  send Scenario.flaky 5000%Z 12 Scenario.mailbox
    = (Scenario.mailbox, Return tt)
  /\ SmsSender.send Scenario.flaky 5000%Z 22 Scenario.mailbox
     = (Scenario.mailbox, Return tt).
Proof.
  destruct (dispatch_not_queued_is_noop Scenario.flaky 5000%Z 12
              Scenario.mailbox) as [H _].
  destruct (dispatch_not_queued_is_noop Scenario.flaky 5000%Z 22
              Scenario.mailbox) as [_ K].
  split.
  - apply (H (Scenario.email_row 12 "t12" SENT 50%Z) eq_refl). discriminate.
  - apply (K (Scenario.sms_row 22 SMS_DELIVERED 50%Z) eq_refl). discriminate.
Defined.

Lemma email_send_provider_throws (env : Providers) (now : Date) (id : Id)
  (mb : Mailbox) (e : Email) (err : string) :
  find_email id mb = Some e -> email_status e = QUEUED ->
  provider_throws env mb e err ->
  exists mb',
    send env now id mb = (mb', Throw (ProviderError err))
    /\ option_map email_status (find_email id mb') = Some FAILED.
Proof.
  intros F Hs (a & Ha & Hp).
  assert (X : existsb (fun r => Nat.eqb (email_id r) id) (emails mb) = true)
    by (apply (find_existsb _ _ _ F)).
  assert (Hid : email_id e = id).
  { apply find_some in F. apply Nat.eqb_eq. apply F. }
  assert (G : forall f, (forall x, email_id (f x) = email_id x) ->
            find (fun r => Nat.eqb (email_id r) id)
                 (update_rows email_id id f (emails mb)) = Some (f e)).
  { intros f Hf. apply find_update_rows; [|exact F|exact Hid].
    intros x. rewrite Hf. reflexivity. }
  unfold send, send_try, sendViaSMTP. rewrite F, Hs, Hid.
  unfold update_email, prisma_update. simpl. rewrite X. simpl.
  unfold account_of in *. simpl. rewrite Ha.
  destruct Hp as [(P & K & S)|(P & S)]; rewrite P; simpl;
    rewrite ?K, S; simpl;
    rewrite ?existsb_update_rows by reflexivity; rewrite ?X; simpl;
    rewrite ?update_rows_compose by reflexivity;
    (eexists; split; [reflexivity|]);
    unfold find_email; simpl; rewrite G by reflexivity; reflexivity.
Qed.

Lemma sms_send_provider_throws (env : Providers) (now : Date) (id : Id)
  (mb : Mailbox) (m : SmsMessage) (err : string) :
  SmsSender.find_sms id mb = Some m -> sms_status m = SMS_QUEUED ->
  SmsSender.provider_throws env mb m err ->
  exists mb',
    SmsSender.send env now id mb = (mb', Throw (ProviderError err))
    /\ option_map sms_status (SmsSender.find_sms id mb') = Some SMS_FAILED.
Proof.
  intros F Hs (a & Ha & P & S).
  assert (X : existsb (fun r => Nat.eqb (sms_id r) id) (smsMessages mb) = true)
    by (apply (find_existsb _ _ _ F)).
  assert (Hid : sms_id m = id).
  { apply find_some in F. apply Nat.eqb_eq. apply F. }
  assert (G : forall f, (forall x, sms_id (f x) = sms_id x) ->
            find (fun r => Nat.eqb (sms_id r) id)
                 (update_rows sms_id id f (smsMessages mb)) = Some (f m)).
  { intros f Hf. apply find_update_rows; [|exact F|exact Hid].
    intros x. rewrite Hf. reflexivity. }
  unfold SmsSender.send, SmsSender.send_try, SmsSender.sendViaTwilio.
  rewrite F, Hs, Hid.
  unfold update_sms, prisma_update. simpl. rewrite X. simpl.
  unfold SmsSender.account_of in *. simpl. rewrite Ha, P. simpl. rewrite S.
  simpl.
  rewrite ?existsb_update_rows by reflexivity; rewrite ?X; simpl.
  rewrite ?update_rows_compose by reflexivity.
  eexists; split; [reflexivity|].
  unfold SmsSender.find_sms; simpl; rewrite G by reflexivity; reflexivity.
Qed.

(** C8.  A synchronous [send] of a QUEUED message whose provider call
    throws: the message is stored FAILED and the provider's error is thrown
    to the caller (email and SMS).  [processQueue] on a mailbox with unique
    ids: it returns, and every message of its batch was dispatched, each
    ending SENT or FAILED according to its own provider call, whatever
    happened to the messages before it. *)
Theorem provider_failure_and_batch
  (env : Providers) (now : Date) (mb : Mailbox) :
  (forall id e err,
     find_email id mb = Some e -> email_status e = QUEUED ->
     provider_throws env mb e err ->
     exists mb',
       send env now id mb = (mb', Throw (ProviderError err))
       /\ option_map email_status (find_email id mb') = Some FAILED)
  /\ (forall id m err,
        SmsSender.find_sms id mb = Some m -> sms_status m = SMS_QUEUED ->
        SmsSender.provider_throws env mb m err ->
        exists mb',
          SmsSender.send env now id mb = (mb', Throw (ProviderError err))
          /\ option_map sms_status (SmsSender.find_sms id mb')
             = Some SMS_FAILED)
  /\ (NoDup (map email_id (emails mb)) ->
      snd (processQueue env now mb) = Return tt
      /\ forall e, In e (queued mb) ->
           option_map email_status
             (find_email (email_id e) (fst (processQueue env now mb)))
           = Some (if delivers env mb e then SENT else FAILED))
  /\ (NoDup (map sms_id (smsMessages mb)) ->
      snd (SmsSender.processQueue env now mb) = Return tt
      /\ forall m, In m (SmsSender.queued mb) ->
           option_map sms_status
             (SmsSender.find_sms (sms_id m)
                (fst (SmsSender.processQueue env now mb)))
           = Some (if SmsSender.delivers env mb m
                   then SMS_SENT else SMS_FAILED)).
Proof.
  split; [|split; [|split]].
  - intros id e err. apply email_send_provider_throws.
  - intros id m err. apply sms_send_provider_throws.
  - intros N. unfold processQueue.
    destruct (batch_spec email_id email_createdAt
                (fun e => EmailStatus_eqb (email_status e) QUEUED)
                (emails mb) N) as [Nq Hq].
    fold (queued mb) in Nq, Hq.
    assert (H : forall e, In e (queued mb) ->
              find_email (email_id e) mb = Some e /\ email_status e = QUEUED).
    { intros e He. destruct (Hq e He) as [F Q]. split; [exact F|].
      destruct (email_status e); simpl in Q; congruence. }
    destruct (email_process_items env now (queued mb) mb Nq H)
      as (R & _ & _ & S).
    split; [exact R|]. intros e He. rewrite (S e He).
    destruct (delivers env mb e); reflexivity.
  - intros N. unfold SmsSender.processQueue.
    destruct (batch_spec sms_id sms_createdAt
                (fun m => SmsStatus_eqb (sms_status m) SMS_QUEUED)
                (smsMessages mb) N) as [Nq Hq].
    fold (SmsSender.queued mb) in Nq, Hq.
    assert (H : forall m, In m (SmsSender.queued mb) ->
              SmsSender.find_sms (sms_id m) mb = Some m
              /\ sms_status m = SMS_QUEUED).
    { intros m Hm. destruct (Hq m Hm) as [F Q]. split; [exact F|].
      destruct (sms_status m); simpl in Q; congruence. }
    destruct (sms_process_items env now (SmsSender.queued mb) mb Nq H)
      as (R & _ & _ & S).
    split; [exact R|]. exact S.
Qed.

Lemma provider_failure_and_batch_witness :
  NoDup (map email_id (emails Scenario.mailbox))
  /\ map email_id (queued Scenario.mailbox) = [10; 11]
  /\ option_map email_status
       (find_email 10 (fst (processQueue Scenario.flaky 5000%Z Scenario.mailbox)))
     = Some FAILED
  /\ option_map email_status
       (find_email 11 (fst (processQueue Scenario.flaky 5000%Z Scenario.mailbox)))
     = Some SENT.
Proof.
  assert (N : NoDup (map email_id (emails Scenario.mailbox))).
  { simpl. repeat constructor; simpl; intuition discriminate. }
  split; [exact N|]. split; [reflexivity|].
  destruct (provider_failure_and_batch Scenario.flaky 5000%Z Scenario.mailbox)
    as (_ & _ & H & _).
  destruct (H N) as [_ S]. split.
  - apply (S (Scenario.email_row 10 "t10" QUEUED 100%Z)). simpl. auto.
  - apply (S (Scenario.email_row 11 "t11" QUEUED 200%Z)). simpl. auto.
Defined.

End Dispatch.

(** ** Webhook events *)

Section Webhook.
Import EmailSender.

Lemma find_by_tracking_patch (t : string) (f : Email -> Email)
  (mb : Mailbox) (e : Email) :
  (forall x, email_trackingId (f x) = email_trackingId x) ->
  find_by_tracking t mb = Some e ->
  find_by_tracking t (patch_email (email_id e) f mb) = Some (f e).
Proof.
  intros Hf F. unfold find_by_tracking, patch_email in *. simpl.
  apply find_update_rows; [|exact F|reflexivity].
  intros x. rewrite Hf. reflexivity.
Qed.

Lemma find_tracked_patch (t : string) (tenant : Id) (f : Email -> Email)
  (mb : Mailbox) (e : Email) :
  (forall x, email_trackingId (f x) = email_trackingId x) ->
  (forall x, email_tenantId (f x) = email_tenantId x) ->
  EmailRouter.find_tracked t tenant mb = Some e ->
  EmailRouter.find_tracked t tenant (patch_email (email_id e) f mb)
  = Some (f e).
Proof.
  intros Hf Ht F. unfold EmailRouter.find_tracked, patch_email in *. simpl.
  apply find_update_rows; [|exact F|reflexivity].
  intros x. rewrite Hf, Ht. reflexivity.
Qed.

(** What one event does, once its tracking id is known to be non-empty. *)
Lemma handle_open (now : Date) (t : string) (mb : Mailbox) :
  t <> EmptyString ->
  handle_event now mb (open_event t)
  = match find_by_tracking t mb with
    | Some email =>
        match email_openedAt email with
        | None => patch_email (email_id email) (with_email_opened now) mb
        | Some _ => mb
        end
    | None => mb
    end.
Proof.
  intros Ht. destruct t as [|c t']; [congruence|].
  unfold handle_event, open_event, js_or. simpl.
  destruct (find_by_tracking (String c t') mb); reflexivity.
Qed.

Lemma handle_click (now : Date) (t : string) (mb : Mailbox) :
  t <> EmptyString ->
  handle_event now mb (click_event t)
  = match find_by_tracking t mb with
    | Some email =>
        match email_clickedAt email with
        | None => patch_email (email_id email) (with_email_clicked now) mb
        | Some _ => mb
        end
    | None => mb
    end.
Proof.
  intros Ht. destruct t as [|c t']; [congruence|].
  unfold handle_event, click_event, js_or. simpl.
  destruct (find_by_tracking (String c t') mb); reflexivity.
Qed.

Lemma handle_overwrite (now : Date) (t : string) (mb : Mailbox) (e : Email) :
  t <> EmptyString -> find_by_tracking t mb = Some e ->
  handle_event now mb (delivered_event t)
  = patch_email (email_id e) (with_email_status DELIVERED) mb
  /\ handle_event now mb (bounce_event t)
     = patch_email (email_id e) (with_email_status BOUNCED) mb
  /\ handle_event now mb (dropped_event t)
     = patch_email (email_id e) (with_email_status BOUNCED) mb.
Proof.
  intros Ht F. destruct t as [|c t']; [congruence|].
  unfold handle_event, delivered_event, bounce_event, dropped_event, js_or.
  simpl. rewrite F. repeat split.
Qed.

Lemma open_replay (now1 now2 : Date) (t : string) (mb : Mailbox) :
  t <> EmptyString ->
  handle_event now2 (handle_event now1 mb (open_event t)) (open_event t)
  = handle_event now1 mb (open_event t).
Proof.
  intros Ht. rewrite (handle_open now1 t mb Ht).
  destruct (find_by_tracking t mb) as [e|] eqn:F.
  - destruct (email_openedAt e) eqn:O.
    + rewrite (handle_open now2 t mb Ht), F, O. reflexivity.
    + rewrite (handle_open now2 t _ Ht).
      rewrite (find_by_tracking_patch t (with_email_opened now1) mb e)
        by (reflexivity || exact F).
      reflexivity.
  - rewrite (handle_open now2 t mb Ht), F. reflexivity.
Qed.

Lemma click_replay (now1 now2 : Date) (t : string) (mb : Mailbox) :
  t <> EmptyString ->
  handle_event now2 (handle_event now1 mb (click_event t)) (click_event t)
  = handle_event now1 mb (click_event t).
Proof.
  intros Ht. rewrite (handle_click now1 t mb Ht).
  destruct (find_by_tracking t mb) as [e|] eqn:F.
  - destruct (email_clickedAt e) eqn:O.
    + rewrite (handle_click now2 t mb Ht), F, O. reflexivity.
    + rewrite (handle_click now2 t _ Ht).
      rewrite (find_by_tracking_patch t (with_email_clicked now1) mb e)
        by (reflexivity || exact F).
      reflexivity.
  - rewrite (handle_click now2 t mb Ht), F. reflexivity.
Qed.

Lemma trackOpen_replay (ctx : Ctx) (now1 now2 : Date) (t : string)
  (mb : Mailbox) :
  EmailRouter.trackOpen ctx now2 t (EmailRouter.trackOpen ctx now1 t mb)
  = EmailRouter.trackOpen ctx now1 t mb.
Proof.
  unfold EmailRouter.trackOpen at 2 3.
  destruct (EmailRouter.find_tracked t (tenantId ctx) mb) as [e|] eqn:F.
  - destruct (email_openedAt e) eqn:O.
    + unfold EmailRouter.trackOpen. rewrite F, O. reflexivity.
    + unfold EmailRouter.trackOpen.
      rewrite (find_tracked_patch t (tenantId ctx) (with_email_opened now1)
                 mb e) by (reflexivity || exact F).
      reflexivity.
  - unfold EmailRouter.trackOpen. rewrite F. reflexivity.
Qed.

Lemma trackClick_replay (ctx : Ctx) (now1 now2 : Date) (t : string)
  (mb : Mailbox) :
  EmailRouter.trackClick ctx now2 t (EmailRouter.trackClick ctx now1 t mb)
  = EmailRouter.trackClick ctx now1 t mb.
Proof.
  unfold EmailRouter.trackClick at 2 3.
  destruct (EmailRouter.find_tracked t (tenantId ctx) mb) as [e|] eqn:F.
  - destruct (email_clickedAt e) eqn:O.
    + unfold EmailRouter.trackClick. rewrite F, O. reflexivity.
    + unfold EmailRouter.trackClick.
      rewrite (find_tracked_patch t (tenantId ctx) (with_email_clicked now1)
                 mb e) by (reflexivity || exact F).
      reflexivity.
  - unfold EmailRouter.trackClick. rewrite F. reflexivity.
Qed.

(** The first [trackOpen] of a message not yet opened stores the patched
    row under the tracking id. *)
Lemma trackOpen_first (ctx : Ctx) (now : Date) (t : string) (mb : Mailbox)
  (e : Email) :
  EmailRouter.find_tracked t (tenantId ctx) mb = Some e ->
  email_openedAt e = None ->
  EmailRouter.find_tracked t (tenantId ctx) (EmailRouter.trackOpen ctx now t mb)
  = Some (with_email_opened now e).
Proof.
  intros F O. unfold EmailRouter.trackOpen. rewrite F, O.
  apply find_tracked_patch; [reflexivity|reflexivity|exact F].
Qed.

Lemma trackClick_first (ctx : Ctx) (now : Date) (t : string) (mb : Mailbox)
  (e : Email) :
  EmailRouter.find_tracked t (tenantId ctx) mb = Some e ->
  email_clickedAt e = None ->
  EmailRouter.find_tracked t (tenantId ctx) (EmailRouter.trackClick ctx now t mb)
  = Some (with_email_clicked now e).
Proof.
  intros F O. unfold EmailRouter.trackClick. rewrite F, O.
  apply find_tracked_patch; [reflexivity|reflexivity|exact F].
Qed.

(** C9.  For a non-empty tracking id: handling the same open (click) event
    again, at any later time, leaves the mailbox as the first handling left
    it; if the message had not been opened (clicked) before, it carries the
    time of the first event and the status OPENED (CLICKED) after the first
    event and after the replay; if it had been, the event changes nothing.
    A delivered event sets the status DELIVERED and a bounce or dropped
    event sets BOUNCED, whatever the status was.  For every tracking id,
    [trackOpen] and [trackClick] of the router behave as the open and click
    events do: the first call on a message of the tenant not yet opened
    (clicked) stores the time of that call and the status OPENED (CLICKED),
    a call on a message already opened (clicked) changes nothing, and a
    repeated call leaves the mailbox as the first call left it. *)
Theorem webhook_replay_idempotent
  (ctx : Ctx) (now1 now2 : Date) (t : string) (mb : Mailbox) :
  (t <> EmptyString ->
   handleSendGridWebhook now2 [open_event t]
     (handleSendGridWebhook now1 [open_event t] mb)
   = handleSendGridWebhook now1 [open_event t] mb
   /\ handleSendGridWebhook now2 [click_event t]
        (handleSendGridWebhook now1 [click_event t] mb)
      = handleSendGridWebhook now1 [click_event t] mb
   /\ (forall e, find_by_tracking t mb = Some e -> email_openedAt e = None ->
       exists e',
         find_by_tracking t (handleSendGridWebhook now1 [open_event t] mb)
         = Some e'
         /\ find_by_tracking t
              (handleSendGridWebhook now2 [open_event t]
                 (handleSendGridWebhook now1 [open_event t] mb)) = Some e'
         /\ email_openedAt e' = Some now1 /\ email_status e' = OPENED)
   /\ (forall e, find_by_tracking t mb = Some e -> email_clickedAt e = None ->
       exists e',
         find_by_tracking t (handleSendGridWebhook now1 [click_event t] mb)
         = Some e'
         /\ find_by_tracking t
              (handleSendGridWebhook now2 [click_event t]
                 (handleSendGridWebhook now1 [click_event t] mb)) = Some e'
         /\ email_clickedAt e' = Some now1 /\ email_status e' = CLICKED)
   /\ (forall e, find_by_tracking t mb = Some e ->
       option_map email_status
         (find_by_tracking t (handleSendGridWebhook now1 [delivered_event t] mb))
       = Some DELIVERED
       /\ option_map email_status
            (find_by_tracking t (handleSendGridWebhook now1 [bounce_event t] mb))
          = Some BOUNCED
       /\ option_map email_status
            (find_by_tracking t (handleSendGridWebhook now1 [dropped_event t] mb))
          = Some BOUNCED)
   /\ (forall e d, find_by_tracking t mb = Some e ->
       (email_openedAt e = Some d ->
        handleSendGridWebhook now1 [open_event t] mb = mb)
       /\ (email_clickedAt e = Some d ->
           handleSendGridWebhook now1 [click_event t] mb = mb)))
  /\ EmailRouter.trackOpen ctx now2 t (EmailRouter.trackOpen ctx now1 t mb)
     = EmailRouter.trackOpen ctx now1 t mb
  /\ EmailRouter.trackClick ctx now2 t (EmailRouter.trackClick ctx now1 t mb)
     = EmailRouter.trackClick ctx now1 t mb
  /\ (forall e, EmailRouter.find_tracked t (tenantId ctx) mb = Some e ->
      email_openedAt e = None ->
      exists e',
        EmailRouter.find_tracked t (tenantId ctx)
          (EmailRouter.trackOpen ctx now1 t mb) = Some e'
        /\ EmailRouter.find_tracked t (tenantId ctx)
             (EmailRouter.trackOpen ctx now2 t
                (EmailRouter.trackOpen ctx now1 t mb)) = Some e'
        /\ email_openedAt e' = Some now1 /\ email_status e' = OPENED)
  /\ (forall e, EmailRouter.find_tracked t (tenantId ctx) mb = Some e ->
      email_clickedAt e = None ->
      exists e',
        EmailRouter.find_tracked t (tenantId ctx)
          (EmailRouter.trackClick ctx now1 t mb) = Some e'
        /\ EmailRouter.find_tracked t (tenantId ctx)
             (EmailRouter.trackClick ctx now2 t
                (EmailRouter.trackClick ctx now1 t mb)) = Some e'
        /\ email_clickedAt e' = Some now1 /\ email_status e' = CLICKED)
  /\ (forall e d, EmailRouter.find_tracked t (tenantId ctx) mb = Some e ->
      (email_openedAt e = Some d -> EmailRouter.trackOpen ctx now1 t mb = mb)
      /\ (email_clickedAt e = Some d ->
          EmailRouter.trackClick ctx now1 t mb = mb)).
Proof.
  split; [|split; [|split; [|split; [|split]]]].
  - intros Ht. unfold handleSendGridWebhook. simpl fold_left.
    split; [apply open_replay; exact Ht|].
    split; [apply click_replay; exact Ht|].
    split; [|split; [|split]].
    + intros e F O. exists (with_email_opened now1 e).
      rewrite (open_replay now1 now2 t mb Ht).
      rewrite (handle_open now1 t mb Ht), F, O.
      rewrite (find_by_tracking_patch t (with_email_opened now1) mb e)
        by (reflexivity || exact F).
      repeat split.
    + intros e F O. exists (with_email_clicked now1 e).
      rewrite (click_replay now1 now2 t mb Ht).
      rewrite (handle_click now1 t mb Ht), F, O.
      rewrite (find_by_tracking_patch t (with_email_clicked now1) mb e)
        by (reflexivity || exact F).
      repeat split.
    + intros e F. destruct (handle_overwrite now1 t mb e Ht F) as (D & B & P).
      rewrite D, B, P.
      rewrite !find_by_tracking_patch by (reflexivity || exact F).
      repeat split.
    + intros e d F. split; intros O.
      * rewrite (handle_open now1 t mb Ht), F, O. reflexivity.
      * rewrite (handle_click now1 t mb Ht), F, O. reflexivity.
  - apply trackOpen_replay.
  - apply trackClick_replay.
  - intros e F O. exists (with_email_opened now1 e).
    rewrite (trackOpen_replay ctx now1 now2 t mb).
    rewrite (trackOpen_first ctx now1 t mb e F O).
    repeat split.
  - intros e F O. exists (with_email_clicked now1 e).
    rewrite (trackClick_replay ctx now1 now2 t mb).
    rewrite (trackClick_first ctx now1 t mb e F O).
    repeat split.
  - intros e d F. split; intros O.
    + unfold EmailRouter.trackOpen. rewrite F, O. reflexivity.
    + unfold EmailRouter.trackClick. rewrite F, O. reflexivity.
Qed.

Lemma webhook_replay_idempotent_witness :
  (exists e',
     find_by_tracking "t12"
       (handleSendGridWebhook 7000%Z [open_event "t12"]
          (handleSendGridWebhook 6000%Z [open_event "t12"] Scenario.mailbox))
     = Some e'
     /\ email_openedAt e' = Some 6000%Z /\ email_status e' = OPENED)
  /\ (exists e',
        EmailRouter.find_tracked "t12" (tenantId Scenario.ctx1)
          (EmailRouter.trackOpen Scenario.ctx1 7000%Z "t12"
             (EmailRouter.trackOpen Scenario.ctx1 6000%Z "t12"
                Scenario.mailbox))
        = Some e'
        /\ email_openedAt e' = Some 6000%Z /\ email_status e' = OPENED)
  /\ (exists e',
        EmailRouter.find_tracked "t12" (tenantId Scenario.ctx1)
          (EmailRouter.trackClick Scenario.ctx1 7000%Z "t12"
             (EmailRouter.trackClick Scenario.ctx1 6000%Z "t12"
                Scenario.mailbox))
        = Some e'
        /\ email_clickedAt e' = Some 6000%Z /\ email_status e' = CLICKED).
Proof.
  assert (Ht : "t12"%string <> EmptyString) by discriminate.
  destruct (webhook_replay_idempotent Scenario.ctx1 6000%Z 7000%Z "t12"
              Scenario.mailbox) as (W & _ & _ & TO & TC & _).
  destruct (W Ht) as (_ & _ & H & _).
  split; [|split].
  - destruct (H (Scenario.email_row 12 "t12" SENT 50%Z) eq_refl eq_refl)
      as (e' & _ & F & O & S).
    exists e'. auto.
  - destruct (TO (Scenario.email_row 12 "t12" SENT 50%Z) eq_refl eq_refl)
      as (e' & _ & F & O & S).
    exists e'. auto.
  - destruct (TC (Scenario.email_row 12 "t12" SENT 50%Z) eq_refl eq_refl)
      as (e' & _ & F & O & S).
    exists e'. auto.
Defined.

End Webhook.

(** ** Cursor pagination *)

Section Pagination.
Context {R : Type} (rid : R -> Id) (createdAt : R -> Date).

Lemma pop_snoc (l : list R) (x : R) : pop (l ++ [x]) = (Some x, l).
Proof.
  induction l as [|a t IH]; [reflexivity|].
  change ((a :: t) ++ [x]) with (a :: (t ++ [x])).
  destruct t as [|b t']; [reflexivity|].
  change (pop (a :: (b :: t') ++ [x]))
    with (let (r, t0) := pop ((b :: t') ++ [x]) in (r, a :: t0)).
  rewrite IH. reflexivity.
Qed.

Lemma firstn_succ_snoc (l : list R) (n : nat) (r : R) :
  nth_error l n = Some r -> firstn (n + 1) l = firstn n l ++ [r].
Proof.
  revert l. induction n as [|n IH]; intros [|a t] H; simpl in *;
    try discriminate.
  - injection H as ->. reflexivity.
  - rewrite (IH t H). reflexivity.
Qed.

(** The page computed by a list handler. *)
Lemma list_query_spec (where_ : R -> bool) (limit : nat)
  (cursor : option Id) (rows : list R) :
  page_spec rid limit (matching rid createdAt where_ cursor rows)
            (list_query rid createdAt where_ limit cursor rows).
Proof.
  unfold list_query, findMany, page_of.
  set (avail := matching rid createdAt where_ cursor rows).
  destruct (Nat.lt_ge_cases limit (List.length avail)) as [Hlt|Hge].
  - destruct (nth_error avail limit) as [r|] eqn:Hn;
      [|apply nth_error_None in Hn; lia].
    rewrite (firstn_succ_snoc avail limit r Hn).
    rewrite length_app, firstn_length_le by lia. simpl.
    replace (Nat.ltb limit (limit + 1)) with true
      by (symmetry; apply Nat.ltb_lt; lia).
    rewrite pop_snoc. unfold page_spec; simpl. repeat split.
    + rewrite firstn_length_le by lia. lia.
    + intros _. exact Hlt.
    + intros _. discriminate.
    + intros c Hc. injection Hc as <-. exists r. rewrite Hn. auto.
  - rewrite firstn_all2 by lia.
    replace (Nat.ltb limit (List.length avail)) with false
      by (symmetry; apply Nat.ltb_ge; lia).
    unfold page_spec; simpl. repeat split.
    + exact Hge.
    + rewrite firstn_all2 by lia. reflexivity.
    + intros H. congruence.
    + intros H. lia.
    + intros c Hc. discriminate.
Qed.

Lemma insert_desc_perm (r : R) (l : list R) :
  Permutation (insert_desc createdAt r l) (r :: l).
Proof.
  induction l as [|x t IH]; simpl; [apply Permutation_refl|].
  destruct (Z.leb (createdAt x) (createdAt r)); [apply Permutation_refl|].
  eapply Permutation_trans; [apply perm_skip; exact IH|apply perm_swap].
Qed.

Lemma sort_desc_perm (l : list R) : Permutation (sort_desc createdAt l) l.
Proof.
  induction l as [|x t IH]; simpl; [apply Permutation_refl|].
  eapply Permutation_trans; [apply insert_desc_perm|].
  apply perm_skip. exact IH.
Qed.

Lemma seek_suffix (c : Id) (l : list R) :
  exists pre, l = pre ++ seek rid c l.
Proof.
  induction l as [|x t IH]; simpl; [exists []; reflexivity|].
  destruct (Nat.eqb (rid x) c); [exists []; reflexivity|].
  destruct IH as [pre E]. exists (x :: pre). simpl. rewrite <- E. reflexivity.
Qed.

Lemma seek_unique (pre post : list R) (r : R) :
  NoDup (map rid (pre ++ r :: post)) ->
  seek rid (rid r) (pre ++ r :: post) = r :: post.
Proof.
  induction pre as [|x t IH]; simpl; intros N.
  - rewrite Nat.eqb_refl. reflexivity.
  - inversion N as [|? ? Hx Ht]; subst.
    destruct (Nat.eqb_spec (rid x) (rid r)) as [E|_]; [|apply IH; exact Ht].
    exfalso. apply Hx. rewrite E, map_app. apply in_or_app. right. left.
    reflexivity.
Qed.

(** With unique ids, the query at the cursor handed out ranges over the
    rows that follow the page, so its page starts with the row whose id the
    cursor is. *)
Lemma list_query_next (where_ : R -> bool) (limit : nat)
  (cursor : option Id) (rows : list R) (c : Id) :
  NoDup (map rid rows) ->
  snd (list_query rid createdAt where_ limit cursor rows) = Some c ->
  matching rid createdAt where_ (Some c) rows
  = skipn limit (matching rid createdAt where_ cursor rows)
  /\ (1 <= limit ->
      hd_error (fst (list_query rid createdAt where_ limit (Some c) rows))
      = nth_error (matching rid createdAt where_ cursor rows) limit).
Proof.
  intros N Hc.
  destruct (list_query_spec where_ limit cursor rows) as (_ & _ & _ & Hr).
  destruct (Hr c Hc) as (r & Hn & <-).
  set (sorted := sort_desc createdAt (filter where_ rows)).
  assert (Ns : NoDup (map rid sorted)).
  { eapply Permutation_NoDup.
    - apply Permutation_sym, Permutation_map, sort_desc_perm.
    - apply NoDup_map_filter. exact N. }
  assert (Hpre : exists pre, sorted
                   = pre ++ matching rid createdAt where_ cursor rows).
  { unfold matching, from_cursor. fold sorted. destruct cursor as [k|].
    - apply seek_suffix.
    - exists []. reflexivity. }
  destruct Hpre as [pre Hpre].
  apply nth_error_split in Hn. destruct Hn as (l1 & l2 & Ha & Hl).
  assert (Hm : matching rid createdAt where_ (Some (rid r)) rows = r :: l2).
  { unfold matching at 1, from_cursor. fold sorted.
    rewrite Hpre, Ha, app_assoc. apply seek_unique.
    rewrite <- app_assoc, <- Ha, <- Hpre. exact Ns. }
  assert (Hs : skipn limit (matching rid createdAt where_ cursor rows) = r :: l2).
  { rewrite Ha, <- Hl, skipn_app, skipn_all, Nat.sub_diag. reflexivity. }
  split; [congruence|].
  intros H1.
  destruct (list_query_spec where_ limit (Some (rid r)) rows) as (_ & Hf & _).
  rewrite Hf, Hm, Ha, nth_error_app2 by lia.
  replace (limit - List.length l1) with 0 by lia.
  destruct limit; [lia|reflexivity].
Qed.

End Pagination.

(** C10.  The list queries of deals, contacts and emails: the page holds at
    most [limit] rows, the first [limit] of the rows matching the filter
    from the cursor on (newest first); a next cursor is returned exactly
    when more than [limit] such rows exist, and it is the id of the first
    row beyond the page; with unique ids and a limit of at least 1, the page
    requested at that cursor starts with that row. *)
Theorem list_pages_and_cursors
  (ctx : Ctx) (st : Store) (mb : Mailbox) (icontains : string -> string -> bool) :
  (forall input,
     let avail :=
       matching deal_id deal_createdAt (DealRouter.list_where ctx input)
                (DealRouter.list_cursor input) (deals st) in
     page_spec deal_id (DealRouter.list_limit input) avail
               (DealRouter.list_deals ctx input st)
     /\ (forall c,
           NoDup (map deal_id (deals st)) ->
           1 <= DealRouter.list_limit input ->
           snd (DealRouter.list_deals ctx input st) = Some c ->
           hd_error (fst (DealRouter.list_deals ctx
                            (DealRouter.with_cursor c input) st))
           = nth_error avail (DealRouter.list_limit input)))
  /\ (forall input,
        let avail :=
          matching contact_id contact_createdAt
                   (ContactRouter.list_where icontains ctx input)
                   (ContactRouter.list_cursor input) (contacts st) in
        page_spec contact_id (ContactRouter.list_limit input) avail
                  (ContactRouter.list_contacts icontains ctx input st)
        /\ (forall c,
              NoDup (map contact_id (contacts st)) ->
              1 <= ContactRouter.list_limit input ->
              snd (ContactRouter.list_contacts icontains ctx input st) = Some c ->
              hd_error (fst (ContactRouter.list_contacts icontains ctx
                               (ContactRouter.with_cursor c input) st))
              = nth_error avail (ContactRouter.list_limit input)))
  /\ (forall input,
        let avail :=
          matching email_id email_createdAt (EmailRouter.list_where ctx input)
                   (EmailRouter.list_cursor input) (emails mb) in
        page_spec email_id (EmailRouter.list_limit input) avail
                  (EmailRouter.list_emails ctx input mb)
        /\ (forall c,
              NoDup (map email_id (emails mb)) ->
              1 <= EmailRouter.list_limit input ->
              snd (EmailRouter.list_emails ctx input mb) = Some c ->
              hd_error (fst (EmailRouter.list_emails ctx
                               (EmailRouter.with_cursor c input) mb))
              = nth_error avail (EmailRouter.list_limit input))).
Proof.
  split; [|split]; intros input avail; split.
  - apply list_query_spec.
  - intros c N L Hc.
    exact (proj2 (list_query_next deal_id deal_createdAt _ _ _ _ c N Hc) L).
  - apply list_query_spec.
  - intros c N L Hc.
    exact (proj2 (list_query_next contact_id contact_createdAt _ _ _ _ c N Hc) L).
  - apply list_query_spec.
  - intros c N L Hc.
    exact (proj2 (list_query_next email_id email_createdAt _ _ _ _ c N Hc) L).
Qed.

Lemma list_pages_and_cursors_witness :
  DealRouter.list_deals Scenario.ctx1 Scenario.first_two
    Scenario.store_three_deals
  = ([Scenario.deal_at 8 3000%Z; Scenario.deal_at 7 2000%Z], Some 6)
  /\ hd_error
       (fst (DealRouter.list_deals Scenario.ctx1
               (DealRouter.with_cursor 6 Scenario.first_two)
               Scenario.store_three_deals))
     = Some (Scenario.deal_at 6 1000%Z).
Proof.
  split; [reflexivity|].
  destruct (list_pages_and_cursors Scenario.ctx1 Scenario.store_three_deals
              Scenario.mailbox (fun _ _ => true)) as [H _].
  destruct (H Scenario.first_two) as [_ K].
  assert (N : NoDup (map deal_id (deals Scenario.store_three_deals))).
  { simpl. repeat constructor; simpl; intuition discriminate. }
  rewrite (K 6 N (le_S 1 1 (le_n 1)) eq_refl). reflexivity.
Defined.
